(** * Network replication core: encoding, RPC dispatch, roles, host session

    A shallow embedding of the engine's network core (ByteBuffer.h, Encoding.h,
    NetSerializableBase.h, DefaultNetLayer.cpp, NetHostSession.cpp) and the
    properties its specification states about it.

    Conventions.
    - A C++ integer of width w is a [Z]; every conversion to a narrower or
      differently signed type is written out with [wrap_u] / [wrap_s].
    - [ByteBuffer] is the [std::vector<uint8>] it wraps, in storage order:
      index 0 first, [back()] last.
    - Code that can run into undefined behaviour ([Pop] on an empty vector, a
      shift of an [int] by 32 bits or more) lives in the monad [M], whose
      result is either [Ok] or the [Fault] that was hit. *)

From stdpp Require Import gmap strings list.
From Stdlib Require Import ZArith Lia Bool.

Local Open Scope Z_scope.

(* ===================================================================== *)
(** ** Machine integers *)
(* ===================================================================== *)

(** Conversion to an unsigned type of [w] bits. *)
Definition wrap_u (w x : Z) : Z := x mod 2 ^ w.

(** Conversion to a signed (two's complement) type of [w] bits. *)
Definition wrap_s (w x : Z) : Z := (x + 2 ^ (w - 1)) mod 2 ^ w - 2 ^ (w - 1).

(** The primitive types Encoding.h has an [Encode]/[Decode] pair for.
    A [float] value is represented by its 32-bit IEEE pattern: the code only
    ever moves it with [memcpy]. *)
Inductive PrimType : Type :=
  | int8 | int16 | int32 | int64
  | uint8 | uint16 | uint32 | uint64
  | float.

Definition sizeof (T : PrimType) : Z :=
  match T with
  | int8 | uint8 => 1
  | int16 | uint16 => 2
  | int32 | uint32 | float => 4
  | int64 | uint64 => 8
  end.

(** Conversion of an [int]-or-wider arithmetic result to the type [T]. *)
Definition conv (T : PrimType) (x : Z) : Z :=
  match T with
  | int8 => wrap_s 8 x
  | int16 => wrap_s 16 x
  | int32 => wrap_s 32 x
  | int64 => wrap_s 64 x
  | uint8 => wrap_u 8 x
  | uint16 => wrap_u 16 x
  | uint32 => wrap_u 32 x
  | uint64 => wrap_u 64 x
  | float => wrap_u 32 x
  end.

(** The values of type [T]. *)
Definition in_range (T : PrimType) (v : Z) : bool :=
  match T with
  | int8 => (-128 <=? v) && (v <? 128)
  | int16 => (-32768 <=? v) && (v <? 32768)
  | int32 => (-2147483648 <=? v) && (v <? 2147483648)
  | int64 => (-9223372036854775808 <=? v) && (v <? 9223372036854775808)
  | uint8 => (0 <=? v) && (v <? 256)
  | uint16 => (0 <=? v) && (v <? 65536)
  | uint32 | float => (0 <=? v) && (v <? 4294967296)
  | uint64 => (0 <=? v) && (v <? 18446744073709551616)
  end.

(* ===================================================================== *)
(** ** ByteBuffer *)
(* ===================================================================== *)

Abbreviation ByteBuffer := (list Z) (only parsing).

Inductive Fault : Type :=
  | PopOnEmpty        (* back()/pop_back() on an empty vector *)
  | ShiftPastWidth.   (* int << n with n >= 32 *)

Inductive Res (A : Type) : Type :=
  | Ok (a : A)
  | Undefined (f : Fault).
Arguments Ok {A} a.
Arguments Undefined {A} f.

(** Computations over the buffer they receive by reference. *)
Definition M (A : Type) : Type := ByteBuffer -> Res (A * ByteBuffer).

Definition ret {A} (a : A) : M A := fun buffer => Ok (a, buffer).

Definition bind {A B} (c : M A) (k : A -> M B) : M B :=
  fun buffer =>
    match c buffer with
    | Ok (a, buffer') => k a buffer'
    | Undefined f => Undefined f
    end.

Notation "x <- c ;; k" := (bind c (fun x => k))
  (at level 62, c at next level, right associativity).

Module ByteBuffer.

(** [inline const uint32 Size() const { return m_data.size(); }] *)
Definition Size_of (buffer : ByteBuffer) : Z :=
  wrap_u 32 (Z.of_nat (length buffer)).

Definition Size : M Z := fun buffer => Ok (Size_of buffer, buffer).

(** [inline void Push(const uint8& b) { m_data.emplace_back(b); }]
    The argument is converted to [uint8] at the call. *)
Definition Push (buffer : ByteBuffer) (b : Z) : ByteBuffer :=
  buffer ++ [wrap_u 8 b].

(** [inline uint8 Pop() { const uint8 b = m_data.back(); m_data.pop_back(); return b; }] *)
Definition Pop : M Z := fun buffer =>
  match buffer with
  | [] => Undefined PopOnEmpty
  | _ :: _ => Ok (List.last buffer 0, removelast buffer)
  end.

(** Modelled from the spec: ByteBuffer.cpp, where [Flip] is defined, is not
    part of the sources; the spec's glossary has "Flip: reversing a
    buffer's read order so sequentially-encoded fields can be decoded
    front-to-back". *)
Definition Flip (buffer : ByteBuffer) : ByteBuffer := rev buffer.

End ByteBuffer.
Import ByteBuffer.

(* ===================================================================== *)
(** ** Encoding.h *)
(* ===================================================================== *)

(** [#define STR_MAX_ENCODE_LEN 128] unless the game overrides it. *)
Definition STR_MAX_ENCODE_LEN : Z := 128.

Definition Encode_int8 (buffer : ByteBuffer) (data : Z) : ByteBuffer :=
  Push buffer data.

Definition Encode_int16 (buffer : ByteBuffer) (data : Z) : ByteBuffer :=
  let buffer := Push buffer (Z.shiftr data (0 * 8)) in
  let buffer := Push buffer (Z.shiftr data (1 * 8)) in
  buffer.

Definition Encode_int32 (buffer : ByteBuffer) (data : Z) : ByteBuffer :=
  let buffer := Push buffer (Z.shiftr data (0 * 8)) in
  let buffer := Push buffer (Z.shiftr data (1 * 8)) in
  let buffer := Push buffer (Z.shiftr data (2 * 8)) in
  let buffer := Push buffer (Z.shiftr data (3 * 8)) in
  buffer.

Definition Encode_int64 (buffer : ByteBuffer) (data : Z) : ByteBuffer :=
  let buffer := Push buffer (Z.shiftr data (0 * 8)) in
  let buffer := Push buffer (Z.shiftr data (1 * 8)) in
  let buffer := Push buffer (Z.shiftr data (2 * 8)) in
  let buffer := Push buffer (Z.shiftr data (3 * 8)) in
  let buffer := Push buffer (Z.shiftr data (4 * 8)) in
  let buffer := Push buffer (Z.shiftr data (5 * 8)) in
  let buffer := Push buffer (Z.shiftr data (6 * 8)) in
  let buffer := Push buffer (Z.shiftr data (7 * 8)) in
  buffer.

Definition Encode_uint8 (buffer : ByteBuffer) (data : Z) : ByteBuffer :=
  Push buffer data.

Definition Encode_uint16 (buffer : ByteBuffer) (data : Z) : ByteBuffer :=
  let buffer := Push buffer (Z.shiftr data (0 * 8)) in
  let buffer := Push buffer (Z.shiftr data (1 * 8)) in
  buffer.

Definition Encode_uint32 (buffer : ByteBuffer) (data : Z) : ByteBuffer :=
  let buffer := Push buffer (Z.shiftr data (0 * 8)) in
  let buffer := Push buffer (Z.shiftr data (1 * 8)) in
  let buffer := Push buffer (Z.shiftr data (2 * 8)) in
  let buffer := Push buffer (Z.shiftr data (3 * 8)) in
  buffer.

Definition Encode_uint64 (buffer : ByteBuffer) (data : Z) : ByteBuffer :=
  let buffer := Push buffer (Z.shiftr data (0 * 8)) in
  let buffer := Push buffer (Z.shiftr data (1 * 8)) in
  let buffer := Push buffer (Z.shiftr data (2 * 8)) in
  let buffer := Push buffer (Z.shiftr data (3 * 8)) in
  let buffer := Push buffer (Z.shiftr data (4 * 8)) in
  let buffer := Push buffer (Z.shiftr data (5 * 8)) in
  let buffer := Push buffer (Z.shiftr data (6 * 8)) in
  let buffer := Push buffer (Z.shiftr data (7 * 8)) in
  buffer.

(** [int temp; std::memcpy(&temp, &data, sizeof(float)); Encode(buffer, temp);]
    The pattern is reread as an [int], and [Encode<int>] is [Encode<int32>]. *)
Definition Encode_float (buffer : ByteBuffer) (data : Z) : ByteBuffer :=
  let temp := wrap_s 32 data in
  Encode_int32 buffer temp.

Definition Encode (T : PrimType) : ByteBuffer -> Z -> ByteBuffer :=
  match T with
  | int8 => Encode_int8
  | int16 => Encode_int16
  | int32 => Encode_int32
  | int64 => Encode_int64
  | uint8 => Encode_uint8
  | uint16 => Encode_uint16
  | uint32 => Encode_uint32
  | uint64 => Encode_uint64
  | float => Encode_float
  end.

(** [buffer.Pop() << n]: the popped [uint8] is promoted to a 32-bit [int]
    before the shift. Shifting into the sign bit gives the wrapped [int];
    a shift count of 32 or more is undefined. *)
Definition shl_int (b n : Z) : M Z := fun buffer =>
  if n <? 32 then Ok (wrap_s 32 (b * 2 ^ n), buffer)
  else Undefined ShiftPastWidth.

(** [out += buffer.Pop();] on an [out] of type [T]. *)
Definition pop_add (T : PrimType) (out : Z) : M Z :=
  b <- Pop ;; ret (conv T (out + b)).

(** [out += buffer.Pop() << n;] on an [out] of type [T]. *)
Definition pop_shl_add (T : PrimType) (out n : Z) : M Z :=
  b <- Pop ;; e <- shl_int b n ;; ret (conv T (out + e)).

(** Each decoder takes the value its out-parameter holds on entry and
    returns the success flag with the value it holds on exit. *)
Definition Decode_int8 (out : Z) : M (bool * Z) :=
  let out := 0 in
  sz <- Size ;;
  if sz <? sizeof int8 then ret (false, out) else
  out <- pop_add int8 out ;;
  ret (true, out).

Definition Decode_int16 (out : Z) : M (bool * Z) :=
  let out := 0 in
  sz <- Size ;;
  if sz <? sizeof int16 then ret (false, out) else
  out <- pop_shl_add int16 out (0 * 8) ;;
  out <- pop_shl_add int16 out (1 * 8) ;;
  ret (true, out).

Definition Decode_int32 (out : Z) : M (bool * Z) :=
  let out := 0 in
  sz <- Size ;;
  if sz <? sizeof int32 then ret (false, out) else
  out <- pop_shl_add int32 out (0 * 8) ;;
  out <- pop_shl_add int32 out (1 * 8) ;;
  out <- pop_shl_add int32 out (2 * 8) ;;
  out <- pop_shl_add int32 out (3 * 8) ;;
  ret (true, out).

Definition Decode_int64 (out : Z) : M (bool * Z) :=
  let out := 0 in
  sz <- Size ;;
  if sz <? sizeof int64 then ret (false, out) else
  out <- pop_shl_add int64 out (0 * 8) ;;
  out <- pop_shl_add int64 out (1 * 8) ;;
  out <- pop_shl_add int64 out (2 * 8) ;;
  out <- pop_shl_add int64 out (3 * 8) ;;
  out <- pop_shl_add int64 out (4 * 8) ;;
  out <- pop_shl_add int64 out (5 * 8) ;;
  out <- pop_shl_add int64 out (6 * 8) ;;
  out <- pop_shl_add int64 out (7 * 8) ;;
  ret (true, out).

Definition Decode_uint8 (out : Z) : M (bool * Z) :=
  let out := 0 in
  sz <- Size ;;
  if sz <? sizeof uint8 then ret (false, out) else
  out <- pop_add uint8 out ;;
  ret (true, out).

Definition Decode_uint16 (out : Z) : M (bool * Z) :=
  let out := 0 in
  sz <- Size ;;
  if sz <? sizeof uint16 then ret (false, out) else
  out <- pop_shl_add uint16 out (0 * 8) ;;
  out <- pop_shl_add uint16 out (1 * 8) ;;
  ret (true, out).

Definition Decode_uint32 (out : Z) : M (bool * Z) :=
  let out := 0 in
  sz <- Size ;;
  if sz <? sizeof uint32 then ret (false, out) else
  out <- pop_shl_add uint32 out (0 * 8) ;;
  out <- pop_shl_add uint32 out (1 * 8) ;;
  out <- pop_shl_add uint32 out (2 * 8) ;;
  out <- pop_shl_add uint32 out (3 * 8) ;;
  ret (true, out).

Definition Decode_uint64 (out : Z) : M (bool * Z) :=
  let out := 0 in
  sz <- Size ;;
  if sz <? sizeof uint64 then ret (false, out) else
  out <- pop_shl_add uint64 out (0 * 8) ;;
  out <- pop_shl_add uint64 out (1 * 8) ;;
  out <- pop_shl_add uint64 out (2 * 8) ;;
  out <- pop_shl_add uint64 out (3 * 8) ;;
  out <- pop_shl_add uint64 out (4 * 8) ;;
  out <- pop_shl_add uint64 out (5 * 8) ;;
  out <- pop_shl_add uint64 out (6 * 8) ;;
  out <- pop_shl_add uint64 out (7 * 8) ;;
  ret (true, out).

(** [uint32 temp; Decode(buffer, temp); std::memcpy(&out, &temp, sizeof(float));]
    [out] is not assigned before the size check. The local [temp] is handed
    to [Decode<uint32>] uninitialised; that decoder overwrites it first thing,
    so its entry value is taken as 0 here. *)
Definition Decode_float (out : Z) : M (bool * Z) :=
  sz <- Size ;;
  if sz <? sizeof float then ret (false, out) else
  r <- Decode_uint32 0 ;;
  let temp := snd r in
  let out := temp in
  ret (true, out).

Definition Decode (T : PrimType) : Z -> M (bool * Z) :=
  match T with
  | int8 => Decode_int8
  | int16 => Decode_int16
  | int32 => Decode_int32
  | int64 => Decode_int64
  | uint8 => Decode_uint8
  | uint16 => Decode_uint16
  | uint32 => Decode_uint32
  | uint64 => Decode_uint64
  | float => Decode_float
  end.

(** *** Strings

    A [char] is a signed 8-bit value; a string is the list of its characters.
    A [const char*] is modelled by the characters from the pointer on, the
    terminating NUL being what is read once they are used up. *)

(** [*c] *)
Definition deref (c : list Z) : Z :=
  match c with
  | [] => 0
  | ch :: _ => ch
  end.

(** The body of [Encode<const char*>]; [n] counts the iterations the loop
    [for (uint32 i = 1; i < STR_MAX_ENCODE_LEN; ++i)] has left. *)
Fixpoint Encode_cstr_loop (n : nat) (c : list Z) (buffer : ByteBuffer) : ByteBuffer :=
  match n with
  | O => Push buffer 0                                  (* Reached limit *)
  | S n' =>
      let buffer := Push buffer (deref c) in
      if deref c =? 0 then buffer
      else Encode_cstr_loop n' (tl c) buffer            (* ++c *)
  end.

(** [Encode<const char*>], for a cap [cap] in place of [STR_MAX_ENCODE_LEN]. *)
Definition Encode_cstr_cap (cap : Z) (buffer : ByteBuffer) (data : list Z) : ByteBuffer :=
  Encode_cstr_loop (Z.to_nat (cap - 1)) data buffer.

Definition Encode_cstr : ByteBuffer -> list Z -> ByteBuffer :=
  Encode_cstr_cap STR_MAX_ENCODE_LEN.

(** [Encode<std::string>] encodes [data.c_str()]. *)
Definition Encode_string : ByteBuffer -> list Z -> ByteBuffer := Encode_cstr.

(** The [while (true)] loop of [Decode<std::string>]. Every iteration that
    does not return pops a byte, so [S (length buffer)] iterations are
    enough; the [O] branch is never reached from [Decode_string]. *)
Fixpoint Decode_string_loop (fuel : nat) (out : list Z) : M (bool * list Z) :=
  match fuel with
  | O => ret (false, out)
  | S fuel' =>
      sz <- Size ;;
      if sz =? 0 then ret (false, out) else      (* Emptied before a NUL *)
      b <- Pop ;;
      let c := wrap_s 8 b in                      (* char c = buffer.Pop(); *)
      if c =? 0 then ret (true, out) else
      Decode_string_loop fuel' (out ++ [c])       (* out += c; *)
  end.

Definition Decode_string (out : list Z) : M (bool * list Z) :=
  fun buffer => Decode_string_loop (S (length buffer)) out buffer.

(** A character of a C string: a [char] other than NUL. *)
Definition is_char (ch : Z) : bool :=
  (-128 <=? ch) && (ch <? 128) && negb (ch =? 0).

(* ===================================================================== *)
(** ** NetSerializableBase.h: roles and RPC tables *)
(* ===================================================================== *)

Module RPCCallingMode.
Inductive t : Type :=
  | Unknown
  | Host        (* Execute RPC on host *)
  | Owner       (* Execute RPC on owning client *)
  | Broadcast.  (* Execute RPC on all clients (only valid when called by server) *)

Definition eqb (a b : t) : bool :=
  match a, b with
  | Unknown, Unknown | Host, Host | Owner, Owner | Broadcast, Broadcast => true
  | _, _ => false
  end.
End RPCCallingMode.

(** NetSocket.h is not part of the sources; the code names the two members
    [TCP] and [UDP]. *)
Inductive SocketType : Type := TCP | UDP.

Definition SocketType_eqb (a b : SocketType) : bool :=
  match a, b with
  | TCP, TCP | UDP, UDP => true
  | _, _ => false
  end.

Record RPCInfo : Type := {
  index : Z;                         (* uint16: registered index of this RPC *)
  callingMode : RPCCallingMode.t;
  socket : SocketType;
}.

Module NetRole.
Inductive t : Type :=
  | None
  | RemotePuppet    (* Doesn't have any control over this object whatsoever *)
  | HostPuppet      (* Doesn't own this object, but is the host, so can edit *)
  | RemoteOwner     (* Owns the object, but is not the host *)
  | HostOwner.      (* Owns the object and is the host *)

Definition eqb (a b : t) : bool :=
  match a, b with
  | None, None | RemotePuppet, RemotePuppet | HostPuppet, HostPuppet
  | RemoteOwner, RemoteOwner | HostOwner, HostOwner => true
  | _, _ => false
  end.
End NetRole.

(** The fields of [NetSerializableBase] the code below reads. *)
Record NetSerializableBase : Type := {
  m_netRole : NetRole.t;
  m_networkOwnerId : Z;
  m_networkId : Z;
}.

Definition GetNetworkID (o : NetSerializableBase) : Z := m_networkId o.

Definition IsNetOwner (o : NetSerializableBase) : bool :=
  NetRole.eqb (m_netRole o) NetRole.None
  || NetRole.eqb (m_netRole o) NetRole.HostOwner
  || NetRole.eqb (m_netRole o) NetRole.RemoteOwner.

Definition IsNetHost (o : NetSerializableBase) : bool :=
  NetRole.eqb (m_netRole o) NetRole.HostOwner
  || NetRole.eqb (m_netRole o) NetRole.HostPuppet.

Definition HasNetControl (o : NetSerializableBase) : bool :=
  IsNetOwner o || IsNetHost o.

(** *** RPC parameters *)

Inductive ParamType : Type :=
  | PPrim (T : PrimType)
  | PString.

Inductive Value : Type :=
  | VPrim (T : PrimType) (v : Z)
  | VString (s : list Z).

Definition Encode_value (buffer : ByteBuffer) (a : Value) : ByteBuffer :=
  match a with
  | VPrim T v => Encode T buffer v
  | VString s => Encode_string buffer s
  end.

(** [paramAType A; Decode<paramAType>(__TEMP_BUFFER, A)]: the local is
    declared without an initialiser; a string starts empty. *)
Definition Decode_param (P : ParamType) : M (bool * Value) :=
  match P with
  | PPrim T => r <- Decode T 0 ;; ret (fst r, VPrim T (snd r))
  | PString => r <- Decode_string [] ;; ret (fst r, VString (snd r))
  end.

(** [Decode<paramAType>(..., A) && Decode<paramBType>(..., B) && ...]:
    left to right, stopping at the first failure. *)
Fixpoint Decode_params (Ps : list ParamType) : M (bool * list Value) :=
  match Ps with
  | [] => ret (true, [])
  | P :: Ps' =>
      r <- Decode_param P ;;
      if fst r then
        rs <- Decode_params Ps' ;;
        ret (fst rs, snd r :: snd rs)
      else ret (false, [])
  end.

(** *** The override pair of a class

    A class lists its RPCs twice: [RPC_INDEX(socketType, mode, func)] lines
    in [RegisterRPCs] and [RPC_EXEC...(func, types...)] lines in
    [ExecuteRPC]. A class hierarchy is the list of its classes, the leaf
    first and each [__super] after it; [NetSerializableBase] itself is the
    empty list. *)

Record IndexEntry : Type := {
  ie_socket : SocketType;
  ie_mode : RPCCallingMode.t;
  ie_func : string;
}.

Record ExecEntry : Type := {
  ee_func : string;
  ee_params : list ParamType;     (* none for RPC_EXEC, one to five otherwise *)
}.

Record NetClass : Type := {
  rpc_index : list IndexEntry;
  rpc_exec : list ExecEntry;
}.

(** An invocation [func(A, B, ...)] of a member function. *)
Record Call : Type := {
  call_func : string;
  call_args : list Value;
}.

(** The [RPC_INDEX] lines of one class, run on [__TEMP_INFO], which is a
    reference to the caller's [outInfo]. *)
Fixpoint index_entries (es : list IndexEntry) (TEMP_NAME : string) (TEMP_INFO : RPCInfo)
  : bool * RPCInfo :=
  match es with
  | [] => (false, TEMP_INFO)                                      (* return false; *)
  | e :: es' =>
      if String.eqb TEMP_NAME (ie_func e)                         (* strcmp(...) == 0 *)
      then (true, {| index := index TEMP_INFO;
                     callingMode := ie_mode e;
                     socket := ie_socket e |})
      else index_entries es' TEMP_NAME
             {| index := wrap_u 16 (index TEMP_INFO + 1);         (* ++__TEMP_INFO.index *)
                callingMode := callingMode TEMP_INFO;
                socket := socket TEMP_INFO |}
  end.

(** Modelled from the spec: NetSerializableBase.cpp is not part of the
    sources. The base class registers no RPC ("otherwise signals not found")
    and positions are counted from zero ("0-indexed"). *)
Definition NetSerializableBase_RegisterRPCs (func : string) (outInfo : RPCInfo)
  : bool * RPCInfo :=
  (false, {| index := 0; callingMode := callingMode outInfo; socket := socket outInfo |}).

(** [RegisterRPCs]: [RPC_INDEX_HEADER] asks [__super] first, on the same
    [outInfo]; then come the class's own [RPC_INDEX] lines. *)
Fixpoint RegisterRPCs (chain : list NetClass) (func : string) (outInfo : RPCInfo)
  : bool * RPCInfo :=
  match chain with
  | [] => NetSerializableBase_RegisterRPCs func outInfo
  | c :: super =>
      let r := RegisterRPCs super func outInfo in
      if fst r then (true, snd r)
      else index_entries (rpc_index c) func (snd r)
  end.

(** The body of a matching [RPC_EXEC...] line: decode, call if every
    parameter decoded; the caller then does [return true]. *)
Definition exec_entry (e : ExecEntry) : M (list Call) :=
  r <- Decode_params (ee_params e) ;;
  if fst r then ret [ {| call_func := ee_func e; call_args := snd r |} ]
  else ret [].

(** The [RPC_EXEC...] lines of one class, run on the local [__TEMP_ID]. *)
Fixpoint exec_entries (es : list ExecEntry) (TEMP_ID : Z) : M (bool * list Call) :=
  match es with
  | [] => ret (false, [])                                        (* return false; *)
  | e :: es' =>
      if TEMP_ID =? 0 then
        calls <- exec_entry e ;;
        ret (true, calls)                                        (* return true; *)
      else exec_entries es' (wrap_u 16 (TEMP_ID - 1))            (* --__TEMP_ID *)
  end.

(** Modelled from the spec: NetSerializableBase.cpp is not part of the
    sources. The base class has no RPC to dispatch to: it reports the index
    as not found and leaves [id] as it is. *)
Definition NetSerializableBase_ExecuteRPC (id : Z) : M (bool * Z * list Call) :=
  ret (false, id, []).

(** [ExecuteRPC(uint16& id, ByteBuffer& params)]. The result carries the
    value [id] holds on return, since it is passed by reference.
    [RPC_EXEC_HEADER] is
      [uint16 __TEMP_ID = id;  if (__super::ExecuteRPC(__TEMP_ID, ...)) return true;]
    so [__TEMP_ID] is a fresh variable initialised from [id], and it is that
    variable [__super] receives. *)
Fixpoint ExecuteRPC (chain : list NetClass) (id : Z) : M (bool * Z * list Call) :=
  match chain with
  | [] => NetSerializableBase_ExecuteRPC id
  | c :: super =>
      let TEMP_ID := id in
      r <- ExecuteRPC super TEMP_ID ;;
      let '(handled, TEMP_ID, calls) := r in
      if handled then ret (true, id, calls)
      else
        r <- exec_entries (rpc_exec c) TEMP_ID ;;
        ret (fst r, id, snd r)
  end.

(** *** The [__CallRPC] macro *)

Inductive Effect : Type :=
  | Invoke (c : Call)                                   (* object->funcCall *)
  | RemoteCallRPC (info : RPCInfo) (params : list Z)    (* __TEMP_NSB->RemoteCallRPC(...) *)
  | LOG_ERROR (msg : string).

(** [__CallRPC(object, func, funcCall, funcEncode)] expanded in a member
    function of [this]. [GetNetworkID()] is unqualified, so it is [this]'s;
    the role tests go through [__TEMP_NSB], which is [object].
    [TEMP_INFO] is the declared-but-unset local [RPCInfo __TEMP_INFO;]. *)
Definition CallRPC (this object : NetSerializableBase) (chain : list NetClass)
    (func : string) (args : list Value) (TEMP_INFO : RPCInfo) : list Effect :=
  let r := RegisterRPCs chain func TEMP_INFO in
  let TEMP_INFO := snd r in
  if fst r then
    if negb (GetNetworkID this =? 0) then
      if (IsNetHost object && RPCCallingMode.eqb (callingMode TEMP_INFO) RPCCallingMode.Host)
         || (IsNetOwner object && RPCCallingMode.eqb (callingMode TEMP_INFO) RPCCallingMode.Owner)
      then [Invoke {| call_func := func; call_args := args |}]
      else if IsNetHost object
              || negb (RPCCallingMode.eqb (callingMode TEMP_INFO) RPCCallingMode.Broadcast)
      then
        let TEMP_BUFFER := fold_left Encode_value args [] in
        [RemoteCallRPC TEMP_INFO TEMP_BUFFER]
      else [LOG_ERROR ("Invalid rights to call function '" ++ func ++ "'")]
    else []
  else [LOG_ERROR ("Cannot call function '" ++ func
                   ++ "' as it is not a registered RPC for the given object")].

(* ===================================================================== *)
(** ** DefaultNetLayer.cpp *)
(* ===================================================================== *)

Module NetResponseCode.
(** Modelled from the spec: the enumeration is declared in a header that is
    not part of the sources; the spec lists its members as "Unknown,
    BadRequest, BadVersions, BadAuthentication, Accepted, Responded". *)
Inductive t : Type :=
  | Unknown | BadRequest | BadVersions | BadAuthentication | Accepted | Responded.

Definition eqb (a b : t) : bool :=
  match a, b with
  | Unknown, Unknown | BadRequest, BadRequest | BadVersions, BadVersions
  | BadAuthentication, BadAuthentication | Accepted, Accepted
  | Responded, Responded => true
  | _, _ => false
  end.
End NetResponseCode.

Record DefaultNetLayer : Type := {
  m_connFlags : Z;
  m_password : list Z;
}.

(** [DefaultNetLayer::SetPassword]:
      [m_password = pass;]
      [if (m_password.empty()) m_connFlags &= ~LAYER_FLAG_PASSWORD;]
      [else m_connFlags |= LAYER_FLAG_PASSWORD;]
    [LAYER_FLAG_PASSWORD] is defined outside the sources and is a parameter
    here. Clearing bits of a flags word and setting bits that fit it stay
    within the word, so no conversion is written out. *)
Definition SetPassword (LAYER_FLAG_PASSWORD : Z) (layer : DefaultNetLayer) (pass : list Z)
  : DefaultNetLayer :=
  let m_password := pass in
  if bool_decide (m_password = [])
  then {| m_connFlags := Z.land (m_connFlags layer) (Z.lnot LAYER_FLAG_PASSWORD);
          m_password := m_password |}
  else {| m_connFlags := Z.lor (m_connFlags layer) LAYER_FLAG_PASSWORD;
          m_password := m_password |}.

(** [OnDecodeHandshake]: the response code and, when accepted, the name
    given to [outPlayer->SetPlayerName]. *)
Definition OnDecodeHandshake (layer : DefaultNetLayer)
  : M (NetResponseCode.t * option (list Z)) :=
  r1 <- Decode_string [] ;;
  let playerName := snd r1 in
  if negb (fst r1) then ret (NetResponseCode.BadRequest, None) else
  r2 <- Decode_string [] ;;
  let password := snd r2 in
  if negb (fst r2) then ret (NetResponseCode.BadRequest, None) else
  if negb (bool_decide (m_password layer = [])) && negb (bool_decide (m_password layer = password))
  then ret (NetResponseCode.BadAuthentication, None)
  else ret (NetResponseCode.Accepted, Some playerName).

(* ===================================================================== *)
(** ** NetHostSession.cpp *)
(* ===================================================================== *)

(** [NetIdentity]: IP address and port. *)
Abbreviation NetIdentity := (Z * Z)%type (only parsing).

Record NetClient : Type := {
  client_identity : NetIdentity;
}.

(** A [NetClient*] is [Some] client or the null pointer [None]. *)
Record NetHostSession : Type := {
  m_clients : list NetClient;
  m_clientLookup : gmap (Z * Z) (option NetClient);
  maxPlayerCount : Z;
}.

Record RawNetPacket : Type := {
  source : NetIdentity;
  buffer : list Z;
}.

Inductive NetRequestType : Type := Ping | Connect | Query.

(** [m_clientLookup[identity]] on a [std::unordered_map]: an absent key is
    inserted with a value-initialised (null) pointer. *)
Definition lookup_or_insert (m : gmap (Z * Z) (option NetClient)) (identity : NetIdentity)
  : option NetClient * gmap (Z * Z) (option NetClient) :=
  match m !! identity with
  | Some client => (client, m)
  | None => (None, <[identity := None]> m)
  end.

Definition GetClient (s : NetHostSession) (identity : NetIdentity)
  : option NetClient * NetHostSession :=
  let r := lookup_or_insert (m_clientLookup s) identity in
  let client := fst r in
  let s := {| m_clients := m_clients s;
              m_clientLookup := snd r;
              maxPlayerCount := maxPlayerCount s |} in
  match client with
  | Some c => (Some c, s)          (* if (client != nullptr) return client; *)
  | None => (None, s)              (* return nullptr; *)
  end.

(** The characters of a string literal. *)
Definition chars (s : string) : list Z :=
  map (fun a => Z.of_N (Ascii.N_of_ascii a)) (String.list_ascii_of_string s).

Section Handshake.

(** What the sources use without defining: the [Version] type with its
    comparison and its [Decode<Version>], the versions the engine and the
    game report, the numbering of [NetResponseCode], and which values of
    the request-type field are [Ping], [Connect] and [Query]. *)
Variable Version : Type.
Variable Version_eqb : Version -> Version -> bool.
Variable Decode_Version : M (bool * Version).
Variable engine_VersionNo : Version.      (* m_engine->GetVersionNo() *)
Variable game_VersionNo : Version.        (* m_engine->GetGame()->GetVersionNo() *)
Variable code_value : NetResponseCode.t -> Z.
Variable request_of : Z -> option NetRequestType.

(** A call [socket.SendTo(response.Data(), response.Size(), packet.source)]. *)
Definition Sent : Type := (list Z * (Z * Z))%type.

(** [VerifyHandshake(client, packet, socket)] on [packet.buffer]: the code
    it returns and what it sent. *)
Definition VerifyHandshake (s : NetHostSession) (packet_source : NetIdentity)
  : M (NetResponseCode.t * list Sent) :=
  let BadRequest :=
    let response := Encode_uint16 [] (code_value NetResponseCode.BadRequest) in
    ret (NetResponseCode.BadRequest, [(response, packet_source)]) in
  r1 <- Decode_Version ;;
  let engineVersion := snd r1 in
  if negb (fst r1) then BadRequest else
  r2 <- Decode_Version ;;
  let gameVersion := snd r2 in
  if negb (fst r2) then BadRequest else
  r3 <- Decode_uint16 0 ;;
  let requestType := snd r3 in
  if negb (fst r3) then BadRequest else
  if negb (Version_eqb engine_VersionNo engineVersion)
     || negb (Version_eqb game_VersionNo gameVersion)
  then
    let response := Encode_uint16 [] (code_value NetResponseCode.BadVersions) in
    ret (NetResponseCode.BadVersions, [(response, packet_source)])
  else
    (* TODO - Ban checks; TODO - Password checks;
       TODO - Whitelist checks; TODO - Server is full checks *)
    match request_of requestType with
    | Some Ping =>
        let response := Encode_uint16 [] (code_value NetResponseCode.Responded) in
        ret (NetResponseCode.Responded, [(response, packet_source)])
    | Some Connect =>
        let response := Encode_uint16 [] (code_value NetResponseCode.Accepted) in
        ret (NetResponseCode.Accepted, [(response, packet_source)])
    | Some Query =>
        let response := Encode_uint16 [] (code_value NetResponseCode.Responded) in
        let response := Encode_uint16 response (Z.of_nat (length (m_clients s))) in
        let response := Encode_uint16 response (maxPlayerCount s) in
        let response := Encode_string response (chars "Unnamed Server") in
        let response := Encode_uint8 response 0 in
        ret (NetResponseCode.Responded, [(response, packet_source)])
    | None => ret (NetResponseCode.Unknown, [])
    end.

(** [ForwardToClient(packet, socket)]: the session afterwards and what was
    sent, computed on [packet.buffer]. *)
Definition ForwardToClient (s : NetHostSession) (packet_source : NetIdentity)
    (socketType : SocketType) : M (NetHostSession * list Sent) :=
  let identity := packet_source in
  let r := GetClient s identity in
  let client := fst r in
  let s := snd r in
  match client with
  | None =>
      if SocketType_eqb socketType TCP then
        let client := {| client_identity := identity |} in      (* new NetClient(identity) *)
        v <- VerifyHandshake s packet_source ;;
        if NetResponseCode.eqb (fst v) NetResponseCode.Accepted then
          ret ({| m_clients := m_clients s ++ [client];
                  m_clientLookup := <[identity := Some client]> (m_clientLookup s);
                  maxPlayerCount := maxPlayerCount s |}, snd v)
        else ret (s, snd v)                                     (* delete client; *)
      else ret (s, [])                                           (* Invalid client *)
  | Some _ => ret (s, [])                                        (* TODO *)
  end.

(** One packet of [Update]: [p.buffer.Flip(); ForwardToClient(p, socket);] *)
Definition receive (s : NetHostSession) (p : RawNetPacket) (socketType : SocketType)
  : Res ((NetHostSession * list Sent) * list Z) :=
  ForwardToClient s (source p) socketType (Flip (buffer p)).

End Handshake.

(* ===================================================================== *)
(** ** Reading aids and scenarios *)
(* ===================================================================== *)

(** The entry the [RPC_EXEC...] lines of one class stop at for a given
    [__TEMP_ID], without running it. *)
Fixpoint select_entry (es : list ExecEntry) (TEMP_ID : Z) : option ExecEntry :=
  match es with
  | [] => None
  | e :: es' =>
      if TEMP_ID =? 0 then Some e
      else select_entry es' (wrap_u 16 (TEMP_ID - 1))
  end.

(** The entry [ExecuteRPC] stops at: [__super]'s if it has one for [id],
    else this class's. [ExecuteRPC_dispatch] below relates it to the code. *)
Fixpoint dispatch (chain : list NetClass) (id : Z) : option ExecEntry :=
  match chain with
  | [] => None
  | c :: super =>
      match dispatch super id with
      | Some e => Some e
      | None => select_entry (rpc_exec c) id
      end
  end.

(** The number of RPC slots a hierarchy declares in all. *)
Definition slot_count (chain : list NetClass) : Z :=
  fold_right (fun c n => Z.of_nat (length (rpc_exec c)) + n) 0 chain.

(** A two-level hierarchy: the parent declares [Respawn]; the leaf declares
    [Shout] and then [MoveTo]. *)
Definition parent_class : NetClass := {|
  rpc_index := [ {| ie_socket := TCP; ie_mode := RPCCallingMode.Host; ie_func := "Respawn" |} ];
  rpc_exec := [ {| ee_func := "Respawn"; ee_params := [] |} ];
|}.

Definition leaf_class : NetClass := {|
  rpc_index := [ {| ie_socket := TCP; ie_mode := RPCCallingMode.Broadcast; ie_func := "Shout" |};
                 {| ie_socket := UDP; ie_mode := RPCCallingMode.Owner; ie_func := "MoveTo" |} ];
  rpc_exec := [ {| ee_func := "Shout"; ee_params := [] |};
                {| ee_func := "MoveTo"; ee_params := [PPrim float; PPrim float] |} ];
|}.

Definition unset_info : RPCInfo :=
  {| index := 52428; callingMode := RPCCallingMode.Unknown; socket := TCP |}.

(** The handshake scenarios of the spec: versions 1.0, a [Connect] request
    from "Alice" with the empty password, sent to a host whose layer has the
    password "secret". The sources leave the wire form of a [Version] and
    the numbering of the two enumerations open; the scenario takes a
    version to be its major and minor byte, numbers the enumerations in
    the order the spec lists them and takes the lowest bit as the password
    flag. *)
Module Scenario.

Definition Version : Type := (Z * Z)%type.

Definition Version_eqb (a b : Version) : bool :=
  (fst a =? fst b) && (snd a =? snd b).

Definition Encode_Version (buffer : ByteBuffer) (v : Version) : ByteBuffer :=
  Encode_uint8 (Encode_uint8 buffer (fst v)) (snd v).

Definition Decode_Version : M (bool * Version) :=
  r1 <- Decode_uint8 0 ;;
  if negb (fst r1) then ret (false, (0, 0)) else
  r2 <- Decode_uint8 0 ;;
  ret (fst r2, (snd r1, snd r2)).

Definition code_value (c : NetResponseCode.t) : Z :=
  match c with
  | NetResponseCode.Unknown => 0
  | NetResponseCode.BadRequest => 1
  | NetResponseCode.BadVersions => 2
  | NetResponseCode.BadAuthentication => 3
  | NetResponseCode.Accepted => 4
  | NetResponseCode.Responded => 5
  end.

Definition request_value (r : NetRequestType) : Z :=
  match r with
  | Ping => 0
  | Connect => 1
  | Query => 2
  end.

Definition request_of (z : Z) : option NetRequestType :=
  if z =? 0 then Some Ping
  else if z =? 1 then Some Connect
  else if z =? 2 then Some Query
  else None.

Definition host : NetHostSession :=
  {| m_clients := []; m_clientLookup := ∅; maxPlayerCount := 8 |}.

(** The password bit of the connection flags; its value is defined outside
    the sources. *)
Definition LAYER_FLAG_PASSWORD : Z := 1.

Definition layer : DefaultNetLayer :=
  SetPassword LAYER_FLAG_PASSWORD {| m_connFlags := 0; m_password := [] |} (chars "secret").

Definition alice : NetIdentity := (2130706433, 50000).

(** What the client puts on the wire: the header, then its name and the
    password it offers. *)
Definition handshake : list Z :=
  let b := Encode_Version [] (1, 0) in
  let b := Encode_Version b (1, 0) in
  let b := Encode_uint16 b (request_value Connect) in
  let b := Encode_string b (chars "Alice") in
  let b := Encode_string b [] in
  b.

Definition packet : RawNetPacket := {| source := alice; buffer := handshake |}.

End Scenario.

(* ===================================================================== *)
(** ** More of the sources *)
(* ===================================================================== *)

(** [inline const uint8& Peek() const { return m_data.back(); }] *)
Definition Peek : M Z := fun buffer =>
  match buffer with
  | [] => Undefined PopOnEmpty
  | _ :: _ => Ok (List.last buffer 0, buffer)
  end.

(** A byte, as [std::vector<uint8>] stores it. *)
Definition is_uint8 (b : Z) : bool := (0 <=? b) && (b <? 256).

(** The number a byte sequence spells, its first byte being the least
    significant one. *)
Definition le_value (bytes : list Z) : Z :=
  fold_right (fun b acc => b + 256 * acc) 0 bytes.

(** The declared type of an RPC argument. *)
Definition type_of (a : Value) : ParamType :=
  match a with
  | VPrim T _ => PPrim T
  | VString _ => PString
  end.

(** An argument the encoding carries over unchanged: a value of a type of
    at most 32 bits, or a string of characters that fits under the cap. *)
Definition portable (a : Value) : bool :=
  match a with
  | VPrim T v => (sizeof T <=? 4) && in_range T v
  | VString s => forallb is_char s && (Z.of_nat (length s) <? STR_MAX_ENCODE_LEN)
  end.

(** [info] with its index set to [i]. *)
Definition set_index (info : RPCInfo) (i : Z) : RPCInfo :=
  {| index := i; callingMode := callingMode info; socket := socket info |}.

(** Whether some class of the hierarchy has an [RPC_INDEX] line for [func]. *)
Definition declares (chain : list NetClass) (func : string) : bool :=
  existsb (fun c => existsb (fun e => String.eqb func (ie_func e)) (rpc_index c)) chain.

(** The number of [RPC_INDEX] lines of a hierarchy. *)
Definition index_count (chain : list NetClass) : Z :=
  fold_right (fun c n => Z.of_nat (length (rpc_index c)) + n) 0 chain.

(** [DefaultNetLayer::OnEncodeHandshake]: [playerName] is what
    [GetUserName] gave, or the empty string when it failed. *)
Definition OnEncodeHandshake (layer : DefaultNetLayer) (playerName : list Z)
    (outBuffer : ByteBuffer) : ByteBuffer :=
  let outBuffer := Encode_string outBuffer playerName in
  let outBuffer := Encode_string outBuffer (m_password layer) in
  outBuffer.

(** The tracked clients and the lookup table agree: each tracked client is
    what the table holds for its identity, and no identity is tracked
    twice. *)
Definition tracked_ok (s : NetHostSession) : Prop :=
  Forall (fun c => m_clientLookup s !! client_identity c = Some (Some c)) (m_clients s)
  /\ NoDup (map client_identity (m_clients s)).

Section Update.

Variable Version : Type.
Variable Version_eqb : Version -> Version -> bool.
Variable Decode_Version : M (bool * Version).
Variable engine_VersionNo : Version.
Variable game_VersionNo : Version.
Variable code_value : NetResponseCode.t -> Z.
Variable request_of : Z -> option NetRequestType.

(** [for (RawNetPacket& p : packets) { p.buffer.Flip(); ForwardToClient(p, socket); }]
    with everything sent on the way, in order. *)
Fixpoint forward_all (s : NetHostSession) (packets : list RawNetPacket)
    (socketType : SocketType) : Res (NetHostSession * list Sent) :=
  match packets with
  | [] => Ok (s, [])
  | p :: packets' =>
      match receive Version Version_eqb Decode_Version engine_VersionNo game_VersionNo
              code_value request_of s p socketType with
      | Ok ((s', sent), _) =>
          match forward_all s' packets' socketType with
          | Ok (s'', sent') => Ok (s'', sent ++ sent')
          | Undefined f => Undefined f
          end
      | Undefined f => Undefined f
      end
  end.

(** [NetHostSession::Update]. What the two [Poll] calls return, the flag and
    the packets they filled in, is the input: first the TCP packets, then
    the UDP packets, each list only if its [Poll] returned true. *)
Definition Update (s : NetHostSession)
    (tcp_poll udp_poll : bool * list RawNetPacket) : Res (NetHostSession * list Sent) :=
  match (if fst tcp_poll then forward_all s (snd tcp_poll) TCP else Ok (s, [])) with
  | Ok (s', sent) =>
      match (if fst udp_poll then forward_all s' (snd udp_poll) UDP else Ok (s', [])) with
      | Ok (s'', sent') => Ok (s'', sent ++ sent')
      | Undefined f => Undefined f
      end
  | Undefined f => Undefined f
  end.

End Update.

(** *** ManagedClass.cpp

    An [MClass] object is known by its address; [GetParentClass] returns the
    parent's object or null. *)
Inductive MClass : Type :=
  | RootClass (addr : Z)                        (* GetParentClass() == nullptr *)
  | SubClass (addr : Z) (parent : MClass).

Definition addr_of (c : MClass) : Z :=
  match c with
  | RootClass addr | SubClass addr _ => addr
  end.

Definition GetParentClass (c : MClass) : option MClass :=
  match c with
  | RootClass _ => None
  | SubClass _ parent => Some parent
  end.

(** [MClass::IsChildOf(other, trueIfIdentical)], [other] being a pointer. *)
Fixpoint IsChildOf (this : MClass) (other : Z) (trueIfIdentical : bool) : bool :=
  match this with
  | RootClass addr =>
      if addr =? other then trueIfIdentical        (* this == other *)
      else false                                   (* parent == nullptr *)
  | SubClass addr parent =>
      if addr =? other then trueIfIdentical
      else IsChildOf parent other true
  end.

(** The addresses of the classes above [c], nearest first. *)
Fixpoint ancestors (c : MClass) : list Z :=
  match c with
  | RootClass _ => []
  | SubClass _ p => addr_of p :: ancestors p
  end.

(** *** BCharacter.h *)

Record ABBomb : Type := {
  bomb_addr : Z;
  IsActive : bool;
}.

(** [ABCharacter::GetNewBomb]: the first pooled bomb that is not active, or
    null. *)
Fixpoint GetNewBomb (m_bombs : list ABBomb) : option ABBomb :=
  match m_bombs with
  | [] => None
  | bomb :: rest =>
      if negb (IsActive bomb) then Some bomb
      else GetNewBomb rest
  end.

(* ===================================================================== *)
(** * Properties *)
(* ===================================================================== *)

Lemma Pop_snoc (l : list Z) (b : Z) : Pop (l ++ [b]) = Ok (b, l).
Proof.
  unfold Pop. destruct (l ++ [b]) eqn:E.
  - destruct l; discriminate.
  - rewrite <- E. now rewrite last_last, removelast_last.
Qed.

Lemma Pop_snoc_app (base l : list Z) (b : Z) :
  Pop (base ++ l ++ [b]) = Ok (b, base ++ l).
Proof. rewrite app_assoc. apply Pop_snoc. Qed.

Lemma Size_of_lt_false (base l : list Z) (n : Z) :
  Z.of_nat (length base) + Z.of_nat (length l) < 2 ^ 32 ->
  n <= Z.of_nat (length l) ->
  (Size_of (base ++ l) <? n) = false.
Proof.
  intros Hb Hn. unfold Size_of, wrap_u. rewrite length_app, Nat2Z.inj_add.
  rewrite Z.mod_small by lia. apply Z.ltb_ge. lia.
Qed.

Lemma bind_Size {B} (k : Z -> M B) (buffer : list Z) :
  bind Size k buffer = k (Size_of buffer) buffer.
Proof. reflexivity. Qed.

Lemma bind_ret {A B} (a : A) (k : A -> M B) (buffer : list Z) :
  bind (ret a) k buffer = k a buffer.
Proof. reflexivity. Qed.

Lemma bind_pop_add {B} T out (k : Z -> M B) (base : list Z) (b : Z) :
  bind (pop_add T out) k (base ++ [b]) = k (conv T (out + b)) base.
Proof. unfold pop_add, bind at 1 2. now rewrite Pop_snoc. Qed.

Lemma bind_pop_shl_add {B} T out n (k : Z -> M B) (base : list Z) (b : Z) :
  n < 32 ->
  bind (pop_shl_add T out n) k (base ++ [b])
  = k (conv T (out + wrap_s 32 (b * 2 ^ n))) base.
Proof.
  intros Hn. unfold pop_shl_add, shl_int, bind at 1 2 3. rewrite Pop_snoc.
  apply Z.ltb_lt in Hn. now rewrite Hn.
Qed.

Lemma snoc_form2 (base : list Z) (a b : Z) :
  base ++ [a; b] = (base ++ [a]) ++ [b].
Proof. now rewrite <- !app_assoc. Qed.

Lemma snoc_form4 (base : list Z) (a b c d : Z) :
  base ++ [a; b; c; d] = (((base ++ [a]) ++ [b]) ++ [c]) ++ [d].
Proof. now rewrite <- !app_assoc. Qed.

Lemma bind_eq {A B} (c : M A) (k : A -> M B) (buffer buffer' : list Z) (a : A) :
  c buffer = Ok (a, buffer') -> bind c k buffer = k a buffer'.
Proof. intros H. unfold bind. now rewrite H. Qed.

(** Arithmetic of bytes: shifts become divisions, the powers of two become
    literals, and [lia] decides the rest. *)
Ltac bytes_arith :=
  unfold conv, wrap_u, wrap_s;
  rewrite ?Z.shiftr_div_pow2 by lia;
  change (2 ^ (0 * 8)) with 1; change (2 ^ (1 * 8)) with 256;
  change (2 ^ (2 * 8)) with 65536; change (2 ^ (3 * 8)) with 16777216;
  change (2 ^ 8) with 256; change (2 ^ (8 - 1)) with 128;
  change (2 ^ 16) with 65536; change (2 ^ (16 - 1)) with 32768;
  change (2 ^ 32) with 4294967296; change (2 ^ (32 - 1)) with 2147483648;
  Z.div_mod_to_equations; lia.

Ltac range_hyp H :=
  unfold in_range in H;
  repeat (apply andb_prop in H; destruct H as [H ?]);
  repeat match goal with
         | X : (_ <=? _) = true |- _ => apply Z.leb_le in X
         | X : (_ <? _) = true |- _ => apply Z.ltb_lt in X
         end.

(** What [Decode<uint32>] computes from four bytes at the end of the buffer,
    the last one being popped first. *)
Lemma Decode_uint32_bytes (o a3 a2 a1 a0 : Z) (base : list Z) :
  Z.of_nat (length base) + 4 < 2 ^ 32 ->
  Decode_uint32 o (base ++ [a3; a2; a1; a0])
  = Ok ((true,
         conv uint32 (conv uint32 (conv uint32 (conv uint32
           (0 + wrap_s 32 (a0 * 2 ^ (0 * 8)))
            + wrap_s 32 (a1 * 2 ^ (1 * 8)))
            + wrap_s 32 (a2 * 2 ^ (2 * 8)))
            + wrap_s 32 (a3 * 2 ^ (3 * 8)))), base).
Proof.
  intros Hb. unfold Decode_uint32. rewrite bind_Size.
  rewrite Size_of_lt_false by (simpl; lia).
  rewrite snoc_form4, !bind_pop_shl_add by lia. reflexivity.
Qed.

Ltac decode_setup :=
  unfold Flip, Encode, Encode_float, Encode_int8, Encode_int16, Encode_int32,
    Encode_uint8, Encode_uint16, Encode_uint32, Push;
  simpl app; rewrite ?rev_app_distr; simpl rev;
  unfold Decode, Decode_float, Decode_int8, Decode_int16, Decode_int32,
    Decode_uint8, Decode_uint16;
  rewrite bind_Size, Size_of_lt_false by (rewrite ?length_rev; simpl in *; lia).

Lemma Decode_rev_Encode (T : PrimType) (v o : Z) (base : list Z) :
  T <> int64 -> T <> uint64 ->
  in_range T v = true ->
  Z.of_nat (length base) + sizeof T < 2 ^ 32 ->
  Decode T o (base ++ rev (Encode T [] v)) = Ok ((true, v), base).
Proof.
  intros H64 Hu64 Hv Hb. range_hyp Hv.
  destruct T; try congruence; simpl sizeof in Hb.
  - decode_setup. rewrite bind_pop_add. unfold ret. do 3 f_equal. bytes_arith.
  - decode_setup. rewrite snoc_form2, !bind_pop_shl_add by lia.
    unfold ret. do 3 f_equal. bytes_arith.
  - decode_setup. rewrite snoc_form4, !bind_pop_shl_add by lia.
    unfold ret. do 3 f_equal. bytes_arith.
  - decode_setup. rewrite bind_pop_add. unfold ret. do 3 f_equal. bytes_arith.
  - decode_setup. rewrite snoc_form2, !bind_pop_shl_add by lia.
    unfold ret. do 3 f_equal. bytes_arith.
  - unfold Encode, Encode_uint32, Push. simpl app. simpl rev.
    unfold Decode. rewrite Decode_uint32_bytes by lia. do 3 f_equal. bytes_arith.
  - decode_setup. erewrite bind_eq by (apply Decode_uint32_bytes; lia).
    unfold ret. simpl snd. do 3 f_equal. bytes_arith.
Qed.

(** ** Encoding: fixed-width values *)

Lemma bind_pop_shl_add_wide {B} T out n (k : Z -> M B) (base : list Z) (b : Z) :
  32 <= n ->
  bind (pop_shl_add T out n) k (base ++ [b]) = Undefined ShiftPastWidth.
Proof.
  intros Hn. unfold pop_shl_add, shl_int, bind at 1 2 3. rewrite Pop_snoc.
  apply Z.ltb_ge in Hn. now rewrite Hn.
Qed.

Lemma snoc_form8 (base : list Z) (a b c d e f g h : Z) :
  base ++ [a; b; c; d; e; f; g; h]
  = (((((((base ++ [a]) ++ [b]) ++ [c]) ++ [d]) ++ [e]) ++ [f]) ++ [g]) ++ [h].
Proof. now rewrite <- !app_assoc. Qed.

(** The 64-bit decoders shift the promoted [int] by [4 * 8] bits at their
    fifth byte: whenever they get past the size check, they run into the
    undefined shift. This is why the round trip below stops at 32 bits. *)
Lemma Decode_64_undefined (T : PrimType) (o : Z) (base : list Z) (a b c d e f g h : Z) :
  T = int64 \/ T = uint64 ->
  Z.of_nat (length base) + 8 < 2 ^ 32 ->
  Decode T o (base ++ [a; b; c; d; e; f; g; h]) = Undefined ShiftPastWidth.
Proof.
  intros [-> | ->] Hb; unfold Decode, Decode_int64, Decode_uint64;
    rewrite bind_Size, Size_of_lt_false by (simpl; lia);
    rewrite snoc_form8, !bind_pop_shl_add by lia;
    now rewrite bind_pop_shl_add_wide by lia.
Qed.

(** C1 (as stated, refuted): decoding right after encoding does not give the
    value back for a multi-byte type. [Encode<uint16>] of 0x0102 pushes 02
    then 01; [Decode<uint16>] pops 01 into the low byte and 02 into the high
    byte, and returns 0x0201. *)
Lemma Decode_after_Encode_swaps_bytes :
  Encode uint16 [] 258 = [2; 1]
  /\ Decode uint16 0 (Encode uint16 [] 258) = Ok ((true, 513), [])
  /\ 513 <> 258.
Proof. repeat split. discriminate. Qed.

(** C1 (amended). For every primitive type [T] of at most 32 bits (8-, 16-
    and 32-bit signed and unsigned integers and the 32-bit float) and every
    value [v] of that type: once the buffer [Encode<T>] wrote [v] into has
    been flipped, as the session's receive path does, [Decode<T>] succeeds,
    yields exactly [v], and leaves the (flipped) fields encoded after [v].
    For the 8-bit types the same holds without the flip: decoding right
    after encoding onto any buffer yields [v] and restores that buffer. *)
Theorem Decode_Flip_Encode_roundtrip (T : PrimType) (v o : Z) (rest : list Z) :
  T <> int64 -> T <> uint64 ->
  in_range T v = true ->
  Z.of_nat (length rest) + sizeof T < 2 ^ 32 ->
  Decode T o (Flip (Encode T [] v ++ rest)) = Ok ((true, v), Flip rest)
  /\ (sizeof T = 1 -> Decode T o (Encode T rest v) = Ok ((true, v), rest)).
Proof.
  intros H64 Hu64 Hv Hb. split.
  - unfold Flip. rewrite rev_app_distr.
    apply Decode_rev_Encode; auto. now rewrite length_rev.
  - intros H1.
    assert (HE : Encode T rest v = rest ++ rev (Encode T [] v))
      by (destruct T; simpl in H1; try discriminate; reflexivity).
    rewrite HE. now apply Decode_rev_Encode.
Qed.

Lemma Decode_Flip_Encode_roundtrip_witness :
  (Decode float 0 (Flip (Encode float [] 3212836864 ++ [7; 9]))
     = Ok ((true, 3212836864), Flip [7; 9])
   /\ (sizeof float = 1 ->
       Decode float 0 (Encode float [7; 9] 3212836864) = Ok ((true, 3212836864), [7; 9])))
  /\ (Decode int8 5 (Flip (Encode int8 [] (-2) ++ [7; 9])) = Ok ((true, -2), Flip [7; 9])
      /\ (sizeof int8 = 1 ->
          Decode int8 5 (Encode int8 [7; 9] (-2)) = Ok ((true, -2), [7; 9]))).
Proof.
  split.
  - apply (Decode_Flip_Encode_roundtrip float 3212836864 0 [7; 9]);
      [discriminate | discriminate | reflexivity | reflexivity].
  - apply (Decode_Flip_Encode_roundtrip int8 (-2) 5 [7; 9]);
      [discriminate | discriminate | reflexivity | reflexivity].
Defined.

(** C7 (as stated, refuted): [Decode<float>] returns before it touches its
    out-parameter, so on an underrun [out] keeps the value it had (here the
    pattern of 1.0f), not zero. *)
Lemma Decode_float_underrun_keeps_out :
  Decode float 1065353216 [1; 2; 3] = Ok ((false, 1065353216), [1; 2; 3])
  /\ 1065353216 <> 0.
Proof. split; [reflexivity | discriminate]. Qed.

(** C7 (amended). For every fixed-width primitive type [T] and every buffer
    holding fewer than [sizeof(T)] bytes, [Decode<T>] returns false without
    popping or reading a byte: no fault is hit and the buffer is left as it
    was. The integer decoders leave the out-parameter zeroed; [Decode<float>]
    leaves it holding the value it had on entry. *)
Theorem Decode_underrun (T : PrimType) (o : Z) (buffer : list Z) :
  Z.of_nat (length buffer) < sizeof T ->
  Decode T o buffer
  = Ok ((false, match T with float => o | _ => 0 end), buffer).
Proof.
  intros Hlen.
  assert (Hsz : (Size_of buffer <? sizeof T) = true).
  { unfold Size_of, wrap_u. apply Z.ltb_lt.
    rewrite Z.mod_small; [lia |].
    split; [lia |]. destruct T; simpl in Hlen; lia. }
  destruct T; unfold Decode, Decode_int8, Decode_int16, Decode_int32,
    Decode_int64, Decode_uint8, Decode_uint16, Decode_uint32, Decode_uint64,
    Decode_float; rewrite bind_Size, Hsz; reflexivity.
Qed.

Lemma Decode_underrun_witness :
  Decode uint32 77 [1; 2; 3] = Ok ((false, 0), [1; 2; 3]).
Proof. apply (Decode_underrun uint32 77 [1; 2; 3]). reflexivity. Defined.

(** ** Encoding: strings *)

Lemma Size_of_nonzero (l : list Z) :
  0 < Z.of_nat (length l) < 2 ^ 32 -> (Size_of l =? 0) = false.
Proof.
  intros H. unfold Size_of, wrap_u. rewrite Z.mod_small by lia.
  apply Z.eqb_neq. lia.
Qed.

Lemma is_char_inv (ch : Z) : is_char ch = true -> -128 <= ch < 128 /\ ch <> 0.
Proof.
  unfold is_char. rewrite !andb_true_iff, negb_true_iff.
  intros [[H1 H2] H3].
  apply Z.leb_le in H1. apply Z.ltb_lt in H2. apply Z.eqb_neq in H3. lia.
Qed.

Lemma char_roundtrip (ch : Z) : -128 <= ch < 128 -> wrap_s 8 (wrap_u 8 ch) = ch.
Proof. intros H. bytes_arith. Qed.

(** What the encoding loop appends: the first [n] characters, then NUL. *)
Lemma Encode_cstr_loop_spec (n : nat) (s buffer : list Z) :
  forallb is_char s = true ->
  Encode_cstr_loop n s buffer = buffer ++ map (wrap_u 8) (firstn n s) ++ [0].
Proof.
  revert s buffer. induction n as [| n IH]; intros s buffer Hs.
  - reflexivity.
  - destruct s as [| ch s]; [reflexivity |].
    simpl in Hs. apply andb_prop in Hs. destruct Hs as [Hch Hs].
    apply is_char_inv in Hch. destruct Hch as [_ Hnz].
    cbn [Encode_cstr_loop deref tl]. apply Z.eqb_neq in Hnz. rewrite Hnz.
    rewrite IH by assumption. unfold Push. cbn [firstn map].
    now rewrite <- app_assoc.
Qed.

(** The decoding loop pops the characters back until the NUL under them. *)
Lemma Decode_string_loop_spec (pre out base : list Z) (fuel : nat) :
  forallb is_char pre = true ->
  (length pre < fuel)%nat ->
  Z.of_nat (length base) + Z.of_nat (length pre) + 1 < 2 ^ 32 ->
  Decode_string_loop fuel out (base ++ [0] ++ rev (map (wrap_u 8) pre))
  = Ok ((true, out ++ pre), base).
Proof.
  revert out fuel. induction pre as [| ch pre IH]; intros out fuel Hs Hfuel Hb.
  - destruct fuel as [| fuel]; [simpl in Hfuel; lia |].
    cbn [Decode_string_loop map rev app]. rewrite bind_Size.
    rewrite Size_of_nonzero by (rewrite length_app; simpl in *; lia).
    unfold bind. rewrite Pop_snoc. simpl. now rewrite app_nil_r.
  - destruct fuel as [| fuel]; [simpl in Hfuel; lia |].
    simpl in Hs. apply andb_prop in Hs. destruct Hs as [Hch Hs].
    apply is_char_inv in Hch. destruct Hch as [Hr Hnz].
    cbn [Decode_string_loop map rev]. rewrite bind_Size.
    rewrite Size_of_nonzero
      by (rewrite !length_app, length_rev, length_map; simpl in *; lia).
    rewrite !app_assoc. unfold bind at 1. rewrite Pop_snoc.
    rewrite char_roundtrip by lia. apply Z.eqb_neq in Hnz. rewrite Hnz.
    rewrite <- app_assoc. rewrite IH; try assumption.
    + now rewrite <- app_assoc.
    + simpl in Hfuel. lia.
    + simpl in Hb. lia.
Qed.

(** The fuel [Decode_string] gives its loop is enough: more of it changes
    nothing, so the loop's [O] branch is not what produces the result. *)
Lemma Decode_string_loop_fuel (fuel1 fuel2 : nat) (out buffer : list Z) :
  (length buffer < fuel1)%nat -> (length buffer < fuel2)%nat ->
  Decode_string_loop fuel1 out buffer = Decode_string_loop fuel2 out buffer.
Proof.
  revert fuel2 out buffer. induction fuel1 as [| fuel1 IH]; intros fuel2 out buffer H1 H2.
  - lia.
  - destruct fuel2 as [| fuel2]; [lia |].
    cbn [Decode_string_loop]. rewrite !bind_Size.
    destruct (Size_of buffer =? 0); [reflexivity |].
    destruct buffer as [| b l _] using rev_ind; [reflexivity |].
    unfold bind. rewrite Pop_snoc.
    destruct (wrap_s 8 b =? 0); [reflexivity |].
    rewrite length_app in H1, H2. simpl in H1, H2. apply IH; lia.
Qed.

Lemma forallb_firstn (f : Z -> bool) (n : nat) (l : list Z) :
  forallb f l = true -> forallb f (firstn n l) = true.
Proof.
  revert l. induction n as [| n IH]; intros [| x l] H; simpl in *; auto.
  apply andb_prop in H. destruct H as [Hx Hl]. rewrite Hx. now apply IH.
Qed.

Lemma Decode_Flip_Encode_cstr (cap : Z) (s rest : list Z) :
  1 <= cap ->
  forallb is_char s = true ->
  Z.of_nat (length rest) + cap < 2 ^ 32 ->
  Decode_string [] (Flip (Encode_cstr_cap cap [] s ++ rest))
  = Ok ((true, firstn (Z.to_nat (cap - 1)) s), Flip rest).
Proof.
  intros Hcap Hs Hb. unfold Encode_cstr_cap.
  rewrite Encode_cstr_loop_spec by assumption.
  set (pre := firstn (Z.to_nat (cap - 1)) s).
  assert (Hlen : Z.of_nat (length pre) <= cap - 1).
  { subst pre. rewrite length_firstn. lia. }
  unfold Flip. cbn [app]. rewrite !rev_app_distr. cbn [rev app].
  unfold Decode_string.
  change (rev rest ++ 0 :: rev (map (wrap_u 8) pre))
    with (rev rest ++ [0] ++ rev (map (wrap_u 8) pre)).
  apply (Decode_string_loop_spec pre [] (rev rest)).
  - now apply forallb_firstn.
  - repeat rewrite ?length_app, ?length_rev, ?length_map. simpl. lia.
  - rewrite length_rev. lia.
Qed.

(** C6 (as stated, refuted): decoding right after encoding pops the
    terminator first. For the one-character string "A" the buffer is
    [65; 0]; [Decode<std::string>] pops the NUL, reports success and returns
    the empty string, leaving the character in the buffer. *)
Lemma Decode_string_after_Encode_is_empty :
  Encode_string [] [65] = [65; 0]
  /\ Decode_string [] (Encode_string [] [65]) = Ok ((true, []), [65])
  /\ [] <> [65].
Proof. repeat split. discriminate. Qed.

(** C6 (amended). For a cap [cap] (the default [STR_MAX_ENCODE_LEN] is 128)
    and a string [s] of characters: encoding appends the first [cap - 1]
    characters of [s] and a NUL, hence at most [cap] bytes ending in the
    terminator. Once the buffer has been flipped, as the session's receive
    path does, decoding succeeds and returns [s] itself when [s] has at most
    [cap - 1] characters, and exactly its first [cap - 1] characters when it
    is longer. *)
Theorem Encode_string_Flip_Decode (cap : Z) (s buffer rest : list Z) :
  1 <= cap ->
  forallb is_char s = true ->
  Z.of_nat (length rest) + cap < 2 ^ 32 ->
  Encode_cstr_cap cap buffer s
    = buffer ++ map (wrap_u 8) (firstn (Z.to_nat (cap - 1)) s) ++ [0]
  /\ Z.of_nat (length (Encode_cstr_cap cap buffer s)) <= Z.of_nat (length buffer) + cap
  /\ (Z.of_nat (length s) <= cap - 1 ->
      Decode_string [] (Flip (Encode_cstr_cap cap [] s ++ rest))
      = Ok ((true, s), Flip rest))
  /\ (cap - 1 < Z.of_nat (length s) ->
      Decode_string [] (Flip (Encode_cstr_cap cap [] s ++ rest))
      = Ok ((true, firstn (Z.to_nat (cap - 1)) s), Flip rest)).
Proof.
  intros Hcap Hs Hb.
  assert (HE : Encode_cstr_cap cap buffer s
               = buffer ++ map (wrap_u 8) (firstn (Z.to_nat (cap - 1)) s) ++ [0])
    by (unfold Encode_cstr_cap; now apply Encode_cstr_loop_spec).
  repeat split.
  - exact HE.
  - rewrite HE, !length_app, length_map, length_firstn. simpl. lia.
  - intros Hshort. rewrite Decode_Flip_Encode_cstr by assumption.
    rewrite firstn_all2 by lia. reflexivity.
  - intros _. now apply Decode_Flip_Encode_cstr.
Qed.

Lemma Encode_string_Flip_Decode_witness :
  (Encode_cstr_cap 4 [9] (chars "Hello")
     = [9] ++ map (wrap_u 8) (firstn (Z.to_nat (4 - 1)) (chars "Hello")) ++ [0]
   /\ Z.of_nat (length (Encode_cstr_cap 4 [9] (chars "Hello"))) <= Z.of_nat (length [9]) + 4
   /\ (Z.of_nat (length (chars "Hello")) <= 4 - 1 ->
       Decode_string [] (Flip (Encode_cstr_cap 4 [] (chars "Hello") ++ [5]))
       = Ok ((true, chars "Hello"), Flip [5]))
   /\ (4 - 1 < Z.of_nat (length (chars "Hello")) ->
       Decode_string [] (Flip (Encode_cstr_cap 4 [] (chars "Hello") ++ [5]))
       = Ok ((true, firstn (Z.to_nat (4 - 1)) (chars "Hello")), Flip [5])))
  /\ (Encode_cstr_cap STR_MAX_ENCODE_LEN [] (chars "Hi")
       = [] ++ map (wrap_u 8) (firstn (Z.to_nat (STR_MAX_ENCODE_LEN - 1)) (chars "Hi")) ++ [0]
      /\ Z.of_nat (length (Encode_cstr_cap STR_MAX_ENCODE_LEN [] (chars "Hi")))
         <= Z.of_nat (length (@nil Z)) + STR_MAX_ENCODE_LEN
      /\ (Z.of_nat (length (chars "Hi")) <= STR_MAX_ENCODE_LEN - 1 ->
          Decode_string [] (Flip (Encode_cstr_cap STR_MAX_ENCODE_LEN [] (chars "Hi") ++ []))
          = Ok ((true, chars "Hi"), Flip []))
      /\ (STR_MAX_ENCODE_LEN - 1 < Z.of_nat (length (chars "Hi")) ->
          Decode_string [] (Flip (Encode_cstr_cap STR_MAX_ENCODE_LEN [] (chars "Hi") ++ []))
          = Ok ((true, firstn (Z.to_nat (STR_MAX_ENCODE_LEN - 1)) (chars "Hi")), Flip []))).
Proof.
  split.
  - apply (Encode_string_Flip_Decode 4 (chars "Hello") [9] [5]);
      [lia | reflexivity | reflexivity].
  - apply (Encode_string_Flip_Decode STR_MAX_ENCODE_LEN (chars "Hi") [] []);
      [unfold STR_MAX_ENCODE_LEN; lia | reflexivity | reflexivity].
Defined.

(** ** RPC dispatch *)

Lemma exec_entries_select (es : list ExecEntry) (id : Z) (buffer : list Z) :
  exec_entries es id buffer
  = match select_entry es id with
    | Some e => (calls <- exec_entry e ;; ret (true, calls)) buffer
    | None => Ok ((false, []), buffer)
    end.
Proof.
  revert id. induction es as [| e es IH]; intros id; simpl.
  - reflexivity.
  - destruct (id =? 0); [reflexivity | apply IH].
Qed.

(** [ExecuteRPC] runs the entry [dispatch] names and reports true, or
    reports false when there is none; [id] is never written. *)
Lemma ExecuteRPC_dispatch (chain : list NetClass) (id : Z) (buffer : list Z) :
  ExecuteRPC chain id buffer
  = match dispatch chain id with
    | Some e => (calls <- exec_entry e ;; ret (true, id, calls)) buffer
    | None => Ok ((false, id, []), buffer)
    end.
Proof.
  induction chain as [| c super IH]; simpl.
  - reflexivity.
  - unfold bind at 1. rewrite IH. destruct (dispatch super id) as [e |].
    + unfold bind, ret. destruct (exec_entry e buffer) as [[calls b] | f]; reflexivity.
    + unfold bind at 1. rewrite exec_entries_select.
      destruct (select_entry (rpc_exec c) id) as [e |]; [| reflexivity].
      unfold bind, ret. destruct (exec_entry e buffer) as [[calls b] | f]; reflexivity.
Qed.

Lemma select_entry_past_end (es : list ExecEntry) (id : Z) :
  Z.of_nat (length es) <= id < 2 ^ 16 -> select_entry es id = None.
Proof.
  revert id. induction es as [| e es IH]; intros id H; simpl in *.
  - reflexivity.
  - assert (Hnz : (id =? 0) = false) by (apply Z.eqb_neq; lia).
    rewrite Hnz. apply IH. unfold wrap_u. rewrite Z.mod_small; lia.
Qed.

Lemma slot_count_nonneg (chain : list NetClass) : 0 <= slot_count chain.
Proof. induction chain; simpl; lia. Qed.

Lemma dispatch_past_end (chain : list NetClass) (id : Z) :
  slot_count chain <= id < 2 ^ 16 -> dispatch chain id = None.
Proof.
  induction chain as [| c super IH]; intros H; simpl in *.
  - reflexivity.
  - pose proof (slot_count_nonneg super).
    rewrite IH by lia. apply select_entry_past_end. lia.
Qed.

(** What the code does with the ancestors' slot count: nothing. With [N]
    ancestor slots, index [N + k] is tested against the leaf's own entries
    as [N + k], not as [k]. *)
Lemma ExecuteRPC_ignores_ancestor_slots
    (leaf : NetClass) (ancestors : list NetClass) (k : Z) (buffer : list Z) :
  0 <= k -> slot_count ancestors + k < 2 ^ 16 ->
  ExecuteRPC (leaf :: ancestors) (slot_count ancestors + k) buffer
  = match select_entry (rpc_exec leaf) (slot_count ancestors + k) with
    | Some e =>
        (calls <- exec_entry e ;; ret (true, slot_count ancestors + k, calls)) buffer
    | None => Ok ((false, slot_count ancestors + k, []), buffer)
    end.
Proof.
  intros Hk Hb. rewrite ExecuteRPC_dispatch. simpl.
  now rewrite dispatch_past_end by lia.
Qed.

(** C2 (the code departs from it). The parent declares one slot, the leaf
    two, so registration numbers [Shout] 1 and [MoveTo] 2. [ExecuteRPC]
    with index 1 should run [Shout]; it stops at [MoveTo]'s entry, decodes
    two floats from the parameters and calls [MoveTo]. With index 2, the
    registered index of [MoveTo], it reports "not found" and leaves the
    parameters where they were. *)
Theorem ExecuteRPC_misses_leaf_slot :
  RegisterRPCs [leaf_class; parent_class] "Shout" unset_info
    = (true, {| index := 1; callingMode := RPCCallingMode.Broadcast; socket := TCP |})
  /\ RegisterRPCs [leaf_class; parent_class] "MoveTo" unset_info
    = (true, {| index := 2; callingMode := RPCCallingMode.Owner; socket := UDP |})
  /\ dispatch [leaf_class; parent_class] 1
    = Some {| ee_func := "MoveTo"; ee_params := [PPrim float; PPrim float] |}
  /\ ExecuteRPC [leaf_class; parent_class] 1
       (Flip (Encode float (Encode float [] 1065353216) 1073741824))
    = Ok ((true, 1, [ {| call_func := "MoveTo";
                         call_args := [VPrim float 1065353216; VPrim float 1073741824] |} ]),
          [])
  /\ ExecuteRPC [leaf_class; parent_class] 2
       (Flip (Encode float (Encode float [] 1065353216) 1073741824))
    = Ok ((false, 2, []), Flip (Encode float (Encode float [] 1065353216) 1073741824)).
Proof. repeat split. Qed.

(** C4. When [ExecuteRPC] stops at an entry and one of the entry's declared
    parameters fails to decode, no function is called and [ExecuteRPC]
    still returns true. *)
Theorem ExecuteRPC_decode_failure_reports_handled
    (chain : list NetClass) (id : Z) (e : ExecEntry)
    (buffer buffer' : list Z) (args : list Value) :
  dispatch chain id = Some e ->
  Decode_params (ee_params e) buffer = Ok ((false, args), buffer') ->
  ExecuteRPC chain id buffer = Ok ((true, id, []), buffer').
Proof.
  intros Hd Hp. rewrite ExecuteRPC_dispatch, Hd.
  unfold exec_entry, bind. now rewrite Hp.
Qed.

Lemma ExecuteRPC_decode_failure_reports_handled_witness :
  ExecuteRPC [leaf_class] 1 [1; 2; 3; 4; 5] = Ok ((true, 1, []), [1]).
Proof.
  apply (ExecuteRPC_decode_failure_reports_handled [leaf_class] 1
           {| ee_func := "MoveTo"; ee_params := [PPrim float; PPrim float] |}
           [1; 2; 3; 4; 5] [1] [VPrim float 33752069]);
    reflexivity.
Defined.

(** A declared parameter list that fails to decode is not empty. *)
Lemma Decode_params_failure_has_params (Ps : list ParamType) (buffer buffer' : list Z)
    (args : list Value) :
  Decode_params Ps buffer = Ok ((false, args), buffer') -> Ps <> [].
Proof. intros H ->. discriminate. Qed.

(** ** The CallRPC macros *)

(** C3 (the code departs from it). With a network identity of zero the
    macro has no branch to take: a registered RPC is neither called, nor
    remoted, nor reported, whatever the role and the calling mode. *)
Theorem CallRPC_zero_identity_does_nothing
    (role : NetRole.t) (owner : Z) (object : NetSerializableBase)
    (chain : list NetClass) (func : string) (args : list Value) (info : RPCInfo) :
  CallRPC {| m_netRole := role; m_networkOwnerId := owner; m_networkId := 0 |}
          object chain func args info
  = if fst (RegisterRPCs chain func info) then []
    else [LOG_ERROR ("Cannot call function '" ++ func
                     ++ "' as it is not a registered RPC for the given object")].
Proof. unfold CallRPC. simpl. reflexivity. Qed.

Lemma CallRPC_zero_identity_example :
  let o := {| m_netRole := NetRole.None; m_networkOwnerId := 0; m_networkId := 0 |} in
  fst (RegisterRPCs [leaf_class; parent_class] "Respawn" unset_info) = true
  /\ CallRPC o o [leaf_class; parent_class] "Respawn" [] unset_info = [].
Proof. split; reflexivity. Qed.

(** The rights error, where it is raised. The identity [__CallRPC] tests is
    the one of [this], the object whose member function the macro is
    expanded in. When that identity is not zero, a registered call that may
    not be executed directly (not the host for a Host call, not the owner
    for an Owner call) and may not be remoted either (not the host, and the
    call is a Broadcast) produces exactly one effect, the "Invalid rights"
    error: the function is not called and nothing is handed to
    [RemoteCallRPC]. This covers every use of the macro on [this] itself. *)
Theorem CallRPC_without_rights_logs_error
    (this object : NetSerializableBase) (chain : list NetClass)
    (func : string) (args : list Value) (info : RPCInfo) :
  GetNetworkID this <> 0 ->
  fst (RegisterRPCs chain func info) = true ->
  (callingMode (snd (RegisterRPCs chain func info)) = RPCCallingMode.Host ->
   IsNetHost object = false) ->
  (callingMode (snd (RegisterRPCs chain func info)) = RPCCallingMode.Owner ->
   IsNetOwner object = false) ->
  IsNetHost object = false ->
  callingMode (snd (RegisterRPCs chain func info)) = RPCCallingMode.Broadcast ->
  CallRPC this object chain func args info
  = [LOG_ERROR ("Invalid rights to call function '" ++ func ++ "'")].
Proof.
  intros Hid Hreg _ _ Hhost Hmode. unfold CallRPC.
  rewrite Hreg, Hmode, Hhost. apply Z.eqb_neq in Hid. rewrite Hid.
  simpl. now rewrite andb_false_r.
Qed.

Lemma CallRPC_without_rights_logs_error_witness :
  CallRPC {| m_netRole := NetRole.RemoteOwner; m_networkOwnerId := 2; m_networkId := 7 |}
          {| m_netRole := NetRole.RemoteOwner; m_networkOwnerId := 2; m_networkId := 7 |}
          [leaf_class; parent_class] "Shout" [] unset_info
  = [LOG_ERROR ("Invalid rights to call function '" ++ "Shout" ++ "'")].
Proof.
  apply (CallRPC_without_rights_logs_error
           {| m_netRole := NetRole.RemoteOwner; m_networkOwnerId := 2; m_networkId := 7 |}
           {| m_netRole := NetRole.RemoteOwner; m_networkOwnerId := 2; m_networkId := 7 |}
           [leaf_class; parent_class] "Shout" [] unset_info);
    [discriminate | reflexivity | discriminate | discriminate
    | reflexivity | reflexivity].
Defined.

(** C5 (the code departs from it). The object the call is made on has the
    network identity 7, its role is [RemoteOwner] (not the host) and
    [Shout] is a registered Broadcast call: the caller may neither execute
    nor remote it. Made from a member function of an object whose own
    identity is still 0, the call has no effect at all: no error is logged,
    the call is dropped silently. The guard of the macro reads
    [GetNetworkID()] of [this], where every other access of the macro goes
    through [object]; made from the object itself, the same call is
    refused with the error. *)
Theorem CallRPC_guard_reads_the_caller :
  (GetNetworkID {| m_netRole := NetRole.RemoteOwner; m_networkOwnerId := 2;
                   m_networkId := 7 |} =? 0) = false
  /\ IsNetHost {| m_netRole := NetRole.RemoteOwner; m_networkOwnerId := 2;
                  m_networkId := 7 |} = false
  /\ RegisterRPCs [leaf_class; parent_class] "Shout" unset_info
     = (true, {| index := 1; callingMode := RPCCallingMode.Broadcast; socket := TCP |})
  /\ CallRPC {| m_netRole := NetRole.None; m_networkOwnerId := 0; m_networkId := 0 |}
             {| m_netRole := NetRole.RemoteOwner; m_networkOwnerId := 2; m_networkId := 7 |}
             [leaf_class; parent_class] "Shout" [] unset_info
     = []
  /\ CallRPC {| m_netRole := NetRole.RemoteOwner; m_networkOwnerId := 2; m_networkId := 7 |}
             {| m_netRole := NetRole.RemoteOwner; m_networkOwnerId := 2; m_networkId := 7 |}
             [leaf_class; parent_class] "Shout" [] unset_info
     = [LOG_ERROR "Invalid rights to call function 'Shout'"].
Proof. repeat split. Qed.

(** The same for every object, role, function and argument list: what
    decides between the three branches and no effect at all is the identity
    of [this] alone. *)
Lemma CallRPC_ignores_object_identity
    (this object : NetSerializableBase) (id : Z) (chain : list NetClass)
    (func : string) (args : list Value) (info : RPCInfo) :
  CallRPC this object chain func args info
  = CallRPC this {| m_netRole := m_netRole object;
                    m_networkOwnerId := m_networkOwnerId object;
                    m_networkId := id |} chain func args info.
Proof. reflexivity. Qed.

(** ** Roles *)

(** C9. Over the five roles: [IsNetOwner] holds exactly for [None],
    [HostOwner] and [RemoteOwner]; [IsNetHost] exactly for [HostOwner] and
    [HostPuppet]; [HasNetControl] exactly when one of the two holds. *)
Theorem role_predicates (o : NetSerializableBase) :
  (IsNetOwner o = true <->
     m_netRole o = NetRole.None \/ m_netRole o = NetRole.HostOwner
     \/ m_netRole o = NetRole.RemoteOwner)
  /\ (IsNetHost o = true <->
     m_netRole o = NetRole.HostOwner \/ m_netRole o = NetRole.HostPuppet)
  /\ (HasNetControl o = true <-> IsNetOwner o = true \/ IsNetHost o = true).
Proof.
  destruct o as [role owner id].
  unfold HasNetControl, IsNetOwner, IsNetHost. simpl.
  destruct role; simpl; intuition (try discriminate; auto).
Qed.

(** The same as a table, role by role: owner, host, control. *)
Lemma role_table (owner id : Z) :
  map (fun r =>
         let o := {| m_netRole := r; m_networkOwnerId := owner; m_networkId := id |} in
         (IsNetOwner o, IsNetHost o, HasNetControl o))
      [NetRole.None; NetRole.RemotePuppet; NetRole.HostPuppet;
       NetRole.RemoteOwner; NetRole.HostOwner]
  = [(true, false, true); (false, false, false); (false, true, true);
     (true, false, true); (true, true, true)].
Proof. reflexivity. Qed.

(** ** Host session *)

(** C10. [GetClient] is not a pure query. For an identity the lookup table
    has no entry for, it returns the null pointer and leaves a null-valued
    entry for that identity behind: the table has one entry more, and the
    list of tracked clients is as before. *)
Theorem GetClient_unknown_inserts_null (s : NetHostSession) (identity : Z * Z) :
  m_clientLookup s !! identity = None ->
  fst (GetClient s identity) = None
  /\ m_clientLookup (snd (GetClient s identity)) = <[identity := None]> (m_clientLookup s)
  /\ m_clientLookup (snd (GetClient s identity)) !! identity = Some None
  /\ size (m_clientLookup (snd (GetClient s identity))) = S (size (m_clientLookup s))
  /\ m_clients (snd (GetClient s identity)) = m_clients s.
Proof.
  intros Hnone. unfold GetClient, lookup_or_insert. rewrite Hnone. simpl.
  repeat split.
  - apply lookup_insert_eq.
  - now apply map_size_insert_None.
Qed.

Lemma GetClient_unknown_inserts_null_witness :
  fst (GetClient Scenario.host Scenario.alice) = None
  /\ m_clientLookup (snd (GetClient Scenario.host Scenario.alice))
     = <[Scenario.alice := None]> (m_clientLookup Scenario.host)
  /\ m_clientLookup (snd (GetClient Scenario.host Scenario.alice)) !! Scenario.alice
     = Some None
  /\ size (m_clientLookup (snd (GetClient Scenario.host Scenario.alice)))
     = S (size (m_clientLookup Scenario.host))
  /\ m_clients (snd (GetClient Scenario.host Scenario.alice)) = m_clients Scenario.host.
Proof.
  apply (GetClient_unknown_inserts_null Scenario.host Scenario.alice). reflexivity.
Defined.

(** A known identity is looked up without a change to the session. *)
Lemma GetClient_known (s : NetHostSession) (identity : Z * Z) (client : option NetClient) :
  m_clientLookup s !! identity = Some client ->
  fst (GetClient s identity) = client
  /\ m_clientLookup (snd (GetClient s identity)) = m_clientLookup s.
Proof.
  intros H. unfold GetClient, lookup_or_insert. rewrite H. destruct client; auto.
Qed.

Section HandshakeProperties.

Context (Version : Type) (Version_eqb : Version -> Version -> bool)
        (Decode_Version : M (bool * Version))
        (engine_VersionNo game_VersionNo : Version)
        (code_value : NetResponseCode.t -> Z)
        (request_of : Z -> option NetRequestType).

Local Abbreviation VerifyHandshake' :=
  (VerifyHandshake Version Version_eqb Decode_Version engine_VersionNo
     game_VersionNo code_value request_of).
Local Abbreviation ForwardToClient' :=
  (ForwardToClient Version Version_eqb Decode_Version engine_VersionNo
     game_VersionNo code_value request_of).

(** A datagram from an unknown source on the unreliable channel is
    ignored, but the lookup table keeps the null entry [GetClient] made. *)
Lemma ForwardToClient_UDP_unknown (s : NetHostSession) (src : Z * Z) (b : list Z) :
  m_clientLookup s !! src = None ->
  ForwardToClient' s src UDP b
  = Ok (({| m_clients := m_clients s;
            m_clientLookup := <[src := None]> (m_clientLookup s);
            maxPlayerCount := maxPlayerCount s |}, []), b).
Proof.
  intros H. unfold ForwardToClient, GetClient, lookup_or_insert. now rewrite H.
Qed.

(** No path of [VerifyHandshake] answers [BadAuthentication]. *)
Lemma VerifyHandshake_never_BadAuthentication (s : NetHostSession) (src : Z * Z)
    (b : list Z) :
  match VerifyHandshake' s src b with
  | Ok ((code, _), _) => NetResponseCode.eqb code NetResponseCode.BadAuthentication = false
  | Undefined _ => True
  end.
Proof.
  unfold VerifyHandshake, bind, ret.
  destruct (Decode_Version b) as [[[ok1 ev] b1] | f]; [| exact I].
  destruct ok1; simpl; [| reflexivity].
  destruct (Decode_Version b1) as [[[ok2 gv] b2] | f]; [| exact I].
  destruct ok2; simpl; [| reflexivity].
  destruct (Decode_uint16 0 b2) as [[[ok3 rt] b3] | f]; [| exact I].
  destruct ok3; simpl; [| reflexivity].
  destruct (negb (Version_eqb engine_VersionNo ev) || negb (Version_eqb game_VersionNo gv));
    [reflexivity |].
  destruct (request_of rt) as [[| |] |]; reflexivity.
Qed.

(** C8 (the code departs from it). A [Connect] handshake from an unknown
    source on the reliable channel, with a well-formed header and matching
    versions, is answered [Accepted] and the client is added to the list of
    tracked clients and to the lookup table, even when what follows the
    header is a name and a password that the layer's own
    [OnDecodeHandshake] rejects with [BadAuthentication] for the password
    the layer is configured with. The bytes after the header are not
    read. *)
Theorem ForwardToClient_Connect_skips_password
    (s : NetHostSession) (src : Z * Z) (layer : DefaultNetLayer)
    (b0 b1 b2 b3 b4 : list Z) (ev gv : Version) (rt : Z) :
  m_clientLookup s !! src = None ->
  Decode_Version b0 = Ok ((true, ev), b1) ->
  Decode_Version b1 = Ok ((true, gv), b2) ->
  Decode_uint16 0 b2 = Ok ((true, rt), b3) ->
  Version_eqb engine_VersionNo ev = true ->
  Version_eqb game_VersionNo gv = true ->
  request_of rt = Some Connect ->
  m_password layer <> [] ->
  OnDecodeHandshake layer b3 = Ok ((NetResponseCode.BadAuthentication, None), b4) ->
  ForwardToClient' s src TCP b0
  = Ok (({| m_clients := m_clients s ++ [ {| client_identity := src |} ];
            m_clientLookup := <[src := Some {| client_identity := src |}]> (m_clientLookup s);
            maxPlayerCount := maxPlayerCount s |},
         [(Encode_uint16 [] (code_value NetResponseCode.Accepted), src)]), b3).
Proof.
  intros Hnone H1 H2 H3 He Hg Hr _ _.
  unfold ForwardToClient, GetClient, lookup_or_insert. rewrite Hnone. simpl.
  unfold VerifyHandshake, bind. rewrite H1. simpl. rewrite H2. simpl.
  rewrite H3. simpl. rewrite He, Hg, Hr. simpl.
  now rewrite insert_insert_eq.
Qed.

End HandshakeProperties.

(** The rejection scenario of the spec, run through [Update]'s receive step:
    the layer holds "secret", the client offers the empty password, and the
    host answers [Accepted] (code 4, low byte first) and tracks the client. *)
Lemma ForwardToClient_Connect_skips_password_witness :
  receive Scenario.Version Scenario.Version_eqb Scenario.Decode_Version (1, 0) (1, 0)
    Scenario.code_value Scenario.request_of Scenario.host Scenario.packet TCP
  = Ok (({| m_clients := [ {| client_identity := Scenario.alice |} ];
            m_clientLookup :=
              <[Scenario.alice := Some {| client_identity := Scenario.alice |}]> ∅;
            maxPlayerCount := 8 |},
         [([4; 0], Scenario.alice)]),
        Flip (Encode_string (Encode_string [] (chars "Alice")) [])).
Proof.
  apply (ForwardToClient_Connect_skips_password
           Scenario.Version Scenario.Version_eqb Scenario.Decode_Version (1, 0) (1, 0)
           Scenario.code_value Scenario.request_of
           Scenario.host Scenario.alice Scenario.layer
           (Flip Scenario.handshake)
           (Flip (Encode_string (Encode_string
              (Encode_uint16 (Scenario.Encode_Version [] (1, 0)) 1) (chars "Alice")) []))
           (Flip (Encode_string (Encode_string (Encode_uint16 [] 1) (chars "Alice")) []))
           (Flip (Encode_string (Encode_string [] (chars "Alice")) []))
           []
           (1, 0) (1, 0) 1);
    try reflexivity; discriminate.
Defined.

(** The layer's own check on the same bytes: the password does not match. *)
Lemma OnDecodeHandshake_rejects_scenario :
  OnDecodeHandshake Scenario.layer
    (Flip (Encode_string (Encode_string [] (chars "Alice")) []))
  = Ok ((NetResponseCode.BadAuthentication, None), []).
Proof. reflexivity. Qed.

(* ===================================================================== *)
(** * Further properties of the code *)
(* ===================================================================== *)

(** ** ByteBuffer *)

(** X1. A pushed byte is what [Peek] shows and what [Pop] returns, reduced
    to a [uint8]; [Peek] leaves the buffer as it is, [Pop] restores the
    buffer of before the push, and [Size] has gone up by one. *)
Theorem Push_then_Peek_Pop (buffer : list Z) (b : Z) :
  Peek (Push buffer b) = Ok (wrap_u 8 b, Push buffer b)
  /\ Pop (Push buffer b) = Ok (wrap_u 8 b, buffer)
  /\ Size_of (Push buffer b) = wrap_u 32 (Size_of buffer + 1)
  /\ is_uint8 (wrap_u 8 b) = true.
Proof.
  unfold Push. repeat split.
  - unfold Peek. destruct (buffer ++ [wrap_u 8 b]) eqn:E.
    + destruct buffer; discriminate.
    + rewrite <- E. now rewrite last_last.
  - apply Pop_snoc.
  - unfold Size_of, wrap_u. rewrite length_app, Nat2Z.inj_add. simpl length.
    change (Z.of_nat 1) with 1. now rewrite Zplus_mod_idemp_l.
  - unfold is_uint8, wrap_u. change (2 ^ 8) with 256.
    pose proof (Z.mod_pos_bound b 256 ltac:(lia)).
    apply andb_true_intro. split; [apply Z.leb_le | apply Z.ltb_lt]; lia.
Qed.

(** ** Encoding: what Encode writes *)

Ltac encode_unfold :=
  unfold Encode, Encode_float, Encode_int8, Encode_int16, Encode_int32,
    Encode_int64, Encode_uint8, Encode_uint16, Encode_uint32, Encode_uint64, Push.

Lemma Encode_app (T : PrimType) (buffer : list Z) (v : Z) :
  Encode T buffer v = buffer ++ Encode T [] v.
Proof. destruct T; encode_unfold; cbn [app]; now rewrite <- ?app_assoc. Qed.

Lemma wrap_u_is_uint8 (x : Z) : is_uint8 (wrap_u 8 x) = true.
Proof.
  unfold is_uint8, wrap_u. change (2 ^ 8) with 256.
  pose proof (Z.mod_pos_bound x 256 ltac:(lia)).
  apply andb_true_intro. split; [apply Z.leb_le | apply Z.ltb_lt]; lia.
Qed.

(** Peeling the low byte off a value. *)
Lemma le_step (w v : Z) :
  0 <= w ->
  wrap_u 8 v + 256 * wrap_u w (v / 256) = wrap_u (8 + w) v.
Proof.
  intros Hw. unfold wrap_u. rewrite Z.pow_add_r by lia. change (2 ^ 8) with 256.
  pose proof (Z.pow_pos_nonneg 2 w ltac:(lia) Hw).
  rewrite Z.rem_mul_r by lia. reflexivity.
Qed.

Lemma shiftr_8 (v k : Z) : 0 <= k -> Z.shiftr v (8 + k) = Z.shiftr (v / 256) k.
Proof.
  intros Hk. rewrite !Z.shiftr_div_pow2 by lia.
  rewrite Z.pow_add_r by lia. change (2 ^ 8) with 256.
  rewrite Z.div_div by lia. reflexivity.
Qed.

Lemma wrap_u_0 (x : Z) : wrap_u 0 x = 0.
Proof. unfold wrap_u. change (2 ^ 0) with 1. apply Z.mod_1_r. Qed.

Ltac shifts_to_divs :=
  change (0 * 8) with 0; change (1 * 8) with (8 + 0);
  change (2 * 8) with (8 + (8 + 0)); change (3 * 8) with (8 + (8 + (8 + 0)));
  change (4 * 8) with (8 + (8 + (8 + (8 + 0))));
  change (5 * 8) with (8 + (8 + (8 + (8 + (8 + 0)))));
  change (6 * 8) with (8 + (8 + (8 + (8 + (8 + (8 + 0))))));
  change (7 * 8) with (8 + (8 + (8 + (8 + (8 + (8 + (8 + 0)))))));
  rewrite ?shiftr_8 by lia; rewrite ?Z.shiftr_0_r.

Lemma wrap_u_wrap_s_32 (x : Z) : wrap_u 32 (wrap_s 32 x) = wrap_u 32 x.
Proof. bytes_arith. Qed.

(** X2. For each of the nine primitive types and any value, [Encode<T>]
    leaves the buffer's content in place and appends exactly [sizeof(T)]
    bytes; read with the first byte least significant, they spell the value
    modulo 2^(8 sizeof(T)), i.e. its two's complement pattern. This includes
    the 64-bit types. *)
Theorem Encode_little_endian (T : PrimType) (buffer : list Z) (v : Z) :
  Encode T buffer v = buffer ++ Encode T [] v
  /\ Z.of_nat (length (Encode T [] v)) = sizeof T
  /\ forallb is_uint8 (Encode T [] v) = true
  /\ le_value (Encode T [] v) = wrap_u (8 * sizeof T) v.
Proof.
  split; [apply Encode_app |]. split; [now destruct T |]. split.
  - destruct T; encode_unfold; cbn [app forallb];
      rewrite ?wrap_u_is_uint8; reflexivity.
  - destruct T; encode_unfold; cbn [app le_value fold_right sizeof];
      shifts_to_divs.
    + change (8 * 1) with (8 + 0).
      rewrite <- !le_step by lia. now rewrite wrap_u_0.
    + change (8 * 2) with (8 + (8 + 0)).
      rewrite <- !le_step by lia. now rewrite wrap_u_0.
    + change (8 * 4) with (8 + (8 + (8 + (8 + 0)))).
      rewrite <- !le_step by lia. now rewrite wrap_u_0.
    + change (8 * 8) with (8 + (8 + (8 + (8 + (8 + (8 + (8 + (8 + 0)))))))).
      rewrite <- !le_step by lia. now rewrite wrap_u_0.
    + change (8 * 1) with (8 + 0).
      rewrite <- !le_step by lia. now rewrite wrap_u_0.
    + change (8 * 2) with (8 + (8 + 0)).
      rewrite <- !le_step by lia. now rewrite wrap_u_0.
    + change (8 * 4) with (8 + (8 + (8 + (8 + 0)))).
      rewrite <- !le_step by lia. now rewrite wrap_u_0.
    + change (8 * 8) with (8 + (8 + (8 + (8 + (8 + (8 + (8 + (8 + 0)))))))).
      rewrite <- !le_step by lia. now rewrite wrap_u_0.
    + transitivity (wrap_u (8 + (8 + (8 + (8 + 0)))) (wrap_s 32 v));
        [| apply wrap_u_wrap_s_32].
      rewrite <- !le_step by lia. now rewrite wrap_u_0.
Qed.

(** ** Encoding: what Decode reads *)

Ltac bytes_hyp H :=
  cbn [forallb] in H; unfold is_uint8 in H;
  repeat match goal with
         | X : (_ && _) = true |- _ => apply andb_prop in X; destruct X
         end;
  repeat match goal with
         | X : (_ <=? _) = true |- _ => apply Z.leb_le in X
         | X : (_ <? _) = true |- _ => apply Z.ltb_lt in X
         end.

Ltac decode_unfold :=
  unfold Decode, Decode_float, Decode_int8, Decode_int16, Decode_int32,
    Decode_int64, Decode_uint8, Decode_uint16, Decode_uint32, Decode_uint64.

Ltac in_range_goal :=
  unfold in_range; apply andb_true_intro; split;
  [apply Z.leb_le | apply Z.ltb_lt]; bytes_arith.

(** X3. For a type of at most 32 bits, a buffer that ends in [sizeof(T)]
    bytes decodes: [Decode<T>] succeeds, pops exactly those bytes and leaves
    what is below them; the value is one of the type, and encoding it gives
    the popped bytes back in the opposite order. So no two byte sequences
    decode to the same value. *)
Theorem Decode_then_Encode (T : PrimType) (o : Z) (base bytes : list Z) :
  T <> int64 -> T <> uint64 ->
  Z.of_nat (length bytes) = sizeof T ->
  forallb is_uint8 bytes = true ->
  Z.of_nat (length base) + sizeof T < 2 ^ 32 ->
  exists v,
    Decode T o (base ++ bytes) = Ok ((true, v), base)
    /\ in_range T v = true
    /\ Encode T [] v = rev bytes.
Proof.
  intros H64 Hu64 Hlen Hbytes Hb.
  destruct T; try congruence; simpl sizeof in *.
  - destruct bytes as [| a [| ? ?]]; simpl in Hlen; try lia. bytes_hyp Hbytes.
    eexists. split; [| split].
    + decode_unfold. rewrite bind_Size, Size_of_lt_false by (simpl; lia).
      rewrite bind_pop_add. reflexivity.
    + in_range_goal.
    + encode_unfold. cbn [app rev]. repeat f_equal; bytes_arith.
  - destruct bytes as [| a [| b [| ? ?]]]; simpl in Hlen; try lia. bytes_hyp Hbytes.
    eexists. split; [| split].
    + decode_unfold. rewrite bind_Size, Size_of_lt_false by (simpl; lia).
      rewrite snoc_form2, !bind_pop_shl_add by lia. reflexivity.
    + in_range_goal.
    + encode_unfold. cbn [app rev]. repeat f_equal; bytes_arith.
  - destruct bytes as [| a [| b [| c [| d [| ? ?]]]]]; simpl in Hlen; try lia.
    bytes_hyp Hbytes.
    eexists. split; [| split].
    + decode_unfold. rewrite bind_Size, Size_of_lt_false by (simpl; lia).
      rewrite snoc_form4, !bind_pop_shl_add by lia. reflexivity.
    + in_range_goal.
    + encode_unfold. cbn [app rev]. repeat f_equal; bytes_arith.
  - destruct bytes as [| a [| ? ?]]; simpl in Hlen; try lia. bytes_hyp Hbytes.
    eexists. split; [| split].
    + decode_unfold. rewrite bind_Size, Size_of_lt_false by (simpl; lia).
      rewrite bind_pop_add. reflexivity.
    + in_range_goal.
    + encode_unfold. cbn [app rev]. repeat f_equal; bytes_arith.
  - destruct bytes as [| a [| b [| ? ?]]]; simpl in Hlen; try lia. bytes_hyp Hbytes.
    eexists. split; [| split].
    + decode_unfold. rewrite bind_Size, Size_of_lt_false by (simpl; lia).
      rewrite snoc_form2, !bind_pop_shl_add by lia. reflexivity.
    + in_range_goal.
    + encode_unfold. cbn [app rev]. repeat f_equal; bytes_arith.
  - destruct bytes as [| a [| b [| c [| d [| ? ?]]]]]; simpl in Hlen; try lia.
    bytes_hyp Hbytes.
    eexists. split; [| split].
    + unfold Decode. apply (Decode_uint32_bytes o). lia.
    + in_range_goal.
    + encode_unfold. cbn [app rev]. repeat f_equal; bytes_arith.
  - destruct bytes as [| a [| b [| c [| d [| ? ?]]]]]; simpl in Hlen; try lia.
    bytes_hyp Hbytes.
    eexists. split; [| split].
    + unfold Decode, Decode_float.
      rewrite bind_Size, Size_of_lt_false by (simpl; lia).
      erewrite bind_eq by (apply (Decode_uint32_bytes 0); lia). reflexivity.
    + cbn [snd]. in_range_goal.
    + cbn [snd]. encode_unfold. cbn [app rev]. repeat f_equal; bytes_arith.
Qed.

Lemma Decode_then_Encode_witness :
  exists v,
    Decode int16 0 ([9] ++ [255; 254]) = Ok ((true, v), [9])
    /\ in_range int16 v = true
    /\ Encode int16 [] v = rev [255; 254].
Proof.
  apply (Decode_then_Encode int16 0 [9] [255; 254]);
    [discriminate | discriminate | reflexivity | reflexivity | reflexivity].
Defined.

Lemma Size_of_le (l : list Z) : Size_of l <= Z.of_nat (length l).
Proof. unfold Size_of, wrap_u. apply Z.mod_le; lia. Qed.

Lemma buffer_tail (l : list Z) (n : nat) :
  (n <= length l)%nat -> exists base tail, l = base ++ tail /\ length tail = n.
Proof.
  intros H. exists (firstn (length l - n) l), (skipn (length l - n) l).
  split; [now rewrite firstn_skipn | rewrite length_skipn; lia].
Qed.

(** A buffer that passed the check [Size() < n] as false ends in [n]
    elements. *)
Lemma passed_size_check (buffer : list Z) (n : nat) :
  (Size_of buffer <? Z.of_nat n) = false ->
  exists base tail, buffer = base ++ tail /\ length tail = n.
Proof.
  intros H. apply Z.ltb_ge in H. pose proof (Size_of_le buffer).
  apply buffer_tail. lia.
Qed.

(** X4. The 64-bit decoders cannot succeed. On any buffer that passes
    their size check, [Decode<int64>] and [Decode<uint64>] reach
    [buffer.Pop() << 4 * 8], a shift of a 32-bit [int] by 32 bits, which is
    undefined. *)
Theorem Decode_64_hits_undefined_shift (T : PrimType) (o : Z) (buffer : list Z) :
  T = int64 \/ T = uint64 ->
  8 <= Z.of_nat (length buffer) < 2 ^ 32 ->
  Decode T o buffer = Undefined ShiftPastWidth.
Proof.
  intros HT Hlen.
  destruct (buffer_tail buffer 8 ltac:(lia))
    as (base & [| a [| b [| c [| d [| e [| f [| g [| h [| ? ?]]]]]]]]] & -> & Ht);
    try discriminate Ht.
  apply Decode_64_undefined; [assumption |].
  rewrite length_app in Hlen. simpl in Hlen. lia.
Qed.

Lemma Decode_64_hits_undefined_shift_witness :
  Decode uint64 0 [9; 1; 0; 0; 0; 0; 0; 0; 0] = Undefined ShiftPastWidth.
Proof.
  apply (Decode_64_hits_undefined_shift uint64 0 [9; 1; 0; 0; 0; 0; 0; 0; 0]);
    [right; reflexivity | simpl; lia].
Defined.

Ltac tail1 H :=
  apply (passed_size_check _ 1) in H;
  destruct H as (base & [| a [| ? ?]] & -> & Hlen); try discriminate Hlen.
Ltac tail2 H :=
  apply (passed_size_check _ 2) in H;
  destruct H as (base & [| a [| b [| ? ?]]] & -> & Hlen); try discriminate Hlen.
Ltac tail4 H :=
  apply (passed_size_check _ 4) in H;
  destruct H as (base & [| a [| b [| c [| d [| ? ?]]]]] & -> & Hlen);
  try discriminate Hlen.
Ltac tail8 H :=
  apply (passed_size_check _ 8) in H;
  destruct H as (base & [| a [| b [| c [| d [| e [| f [| g [| h [| ? ?]]]]]]]]] & -> & Hlen);
  try discriminate Hlen.

(** X5. Whatever the buffer and whatever the type, a fixed-width decoder
    never pops an empty buffer: its size check stands before every pop. For
    the types of at most 32 bits it therefore always returns normally. *)
Theorem Decode_never_pops_empty (T : PrimType) (o : Z) (buffer : list Z) :
  match Decode T o buffer with
  | Ok _ => True
  | Undefined PopOnEmpty => False
  | Undefined ShiftPastWidth => sizeof T = 8
  end.
Proof.
  destruct T; decode_unfold; rewrite bind_Size;
    match goal with
    | |- context [Size_of buffer <? ?n] => destruct (Size_of buffer <? n) eqn:Hsz
    end; try exact I.
  - tail1 Hsz. now rewrite bind_pop_add.
  - tail2 Hsz. now rewrite snoc_form2, !bind_pop_shl_add by lia.
  - tail4 Hsz. now rewrite snoc_form4, !bind_pop_shl_add by lia.
  - tail8 Hsz. rewrite snoc_form8, !bind_pop_shl_add by lia.
    now rewrite bind_pop_shl_add_wide by lia.
  - tail1 Hsz. now rewrite bind_pop_add.
  - tail2 Hsz. now rewrite snoc_form2, !bind_pop_shl_add by lia.
  - tail4 Hsz. now rewrite snoc_form4, !bind_pop_shl_add by lia.
  - tail8 Hsz. rewrite snoc_form8, !bind_pop_shl_add by lia.
    now rewrite bind_pop_shl_add_wide by lia.
  - unfold bind at 1. rewrite bind_Size.
    change (sizeof uint32) with (sizeof float). rewrite Hsz.
    tail4 Hsz. now rewrite snoc_form4, !bind_pop_shl_add by lia.
Qed.

(** ** Encoding: strings, the other cases *)

Lemma Decode_string_loop_total (fuel : nat) (out buffer : list Z) :
  exists ok s left popped,
    Decode_string_loop fuel out buffer = Ok ((ok, out ++ s), left)
    /\ buffer = left ++ popped.
Proof.
  revert out buffer. induction fuel as [| fuel IH]; intros out buffer.
  - exists false, [], buffer, []. now rewrite !app_nil_r.
  - cbn [Decode_string_loop]. rewrite bind_Size.
    destruct buffer as [| b l _] using rev_ind.
    + exists false, [], [], []. now rewrite app_nil_r.
    + destruct (Size_of (l ++ [b]) =? 0).
      * exists false, [], (l ++ [b]), []. now rewrite !app_nil_r.
      * unfold bind. rewrite Pop_snoc. destruct (wrap_s 8 b =? 0).
        -- exists true, [], l, [b]. now rewrite app_nil_r.
        -- destruct (IH (out ++ [wrap_s 8 b]) l) as (ok & s & left & popped & Hrun & Hl).
           exists ok, (wrap_s 8 b :: s), left, (popped ++ [b]).
           split; [rewrite Hrun; now rewrite <- app_assoc |].
           rewrite Hl. now rewrite app_assoc.
Qed.

(** X6. [Decode<std::string>] returns normally on every buffer: it never
    pops an empty one. It only ever pops from the end, so what it leaves is
    a prefix of the buffer, and it only ever appends to [out]: a string that
    is not empty on entry keeps its content in front of what was decoded. *)
Theorem Decode_string_appends (out buffer : list Z) :
  exists ok s left popped,
    Decode_string out buffer = Ok ((ok, out ++ s), left)
    /\ buffer = left ++ popped.
Proof. apply Decode_string_loop_total. Qed.

Lemma Decode_string_loop_no_NUL (buffer out : list Z) (fuel : nat) :
  forallb (fun b => negb (wrap_s 8 b =? 0)) buffer = true ->
  Z.of_nat (length buffer) < 2 ^ 32 ->
  (length buffer < fuel)%nat ->
  Decode_string_loop fuel out buffer
  = Ok ((false, out ++ rev (map (wrap_s 8) buffer)), []).
Proof.
  revert out fuel. induction buffer as [| b l IH] using rev_ind; intros out fuel Hnz Hlen Hfuel.
  - destruct fuel; [simpl in Hfuel; lia |]. simpl. now rewrite app_nil_r.
  - destruct fuel as [| fuel]; [lia |].
    rewrite forallb_app in Hnz. apply andb_prop in Hnz. destruct Hnz as [Hl Hb].
    simpl in Hb. rewrite andb_true_r in Hb. apply negb_true_iff in Hb.
    rewrite length_app in Hlen, Hfuel. simpl in Hlen, Hfuel.
    cbn [Decode_string_loop]. rewrite bind_Size.
    rewrite Size_of_nonzero by (rewrite length_app; simpl; lia).
    unfold bind at 1. rewrite Pop_snoc, Hb.
    rewrite IH by (assumption || lia).
    rewrite map_app, rev_app_distr. simpl. now rewrite <- app_assoc.
Qed.

Lemma Decode_string_without_terminator_aux (out buffer : list Z) :
  forallb (fun b => negb (wrap_s 8 b =? 0)) buffer = true ->
  Z.of_nat (length buffer) < 2 ^ 32 ->
  Decode_string out buffer = Ok ((false, out ++ rev (map (wrap_s 8) buffer)), []).
Proof.
  intros Hnz Hlen. unfold Decode_string.
  apply Decode_string_loop_no_NUL; auto.
Qed.

(** X7. A buffer without a NUL byte: [Decode<std::string>] fails, but only
    after it has popped the whole buffer and appended every byte to [out],
    the last byte first. *)
Theorem Decode_string_without_terminator (out buffer : list Z) :
  forallb (fun b => negb (wrap_s 8 b =? 0)) buffer = true ->
  Z.of_nat (length buffer) < 2 ^ 32 ->
  Decode_string out buffer = Ok ((false, out ++ rev (map (wrap_s 8) buffer)), []).
Proof. apply Decode_string_without_terminator_aux. Qed.

Lemma Decode_string_without_terminator_witness :
  Decode_string [80] [72; 105; 200]
  = Ok ((false, [80] ++ rev (map (wrap_s 8) [72; 105; 200])), []).
Proof.
  apply (Decode_string_without_terminator [80] [72; 105; 200]); reflexivity.
Defined.

Lemma Encode_cstr_loop_stops_at_NUL (n : nat) (pre post buffer : list Z) :
  forallb is_char pre = true ->
  Encode_cstr_loop n (pre ++ 0 :: post) buffer = Encode_cstr_loop n pre buffer.
Proof.
  revert pre buffer. induction n as [| n IH]; intros pre buffer Hpre.
  - reflexivity.
  - destruct pre as [| ch pre]; [reflexivity |].
    simpl in Hpre. apply andb_prop in Hpre. destruct Hpre as [Hch Hpre].
    apply is_char_inv in Hch. destruct Hch as [_ Hnz]. apply Z.eqb_neq in Hnz.
    cbn [Encode_cstr_loop app deref tl]. rewrite Hnz. now apply IH.
Qed.

(** X8. [Encode<std::string>] goes through [c_str()], so a string with a
    NUL inside is encoded as the part before its first NUL: whatever
    follows is not written, for any cap. *)
Theorem Encode_string_stops_at_NUL (cap : Z) (pre post buffer : list Z) :
  forallb is_char pre = true ->
  Encode_cstr_cap cap buffer (pre ++ 0 :: post) = Encode_cstr_cap cap buffer pre.
Proof. intros H. unfold Encode_cstr_cap. now apply Encode_cstr_loop_stops_at_NUL. Qed.

Lemma Encode_string_stops_at_NUL_witness :
  Encode_cstr_cap 128 [7] (chars "ab" ++ 0 :: chars "cd") = Encode_cstr_cap 128 [7] (chars "ab").
Proof. apply (Encode_string_stops_at_NUL 128 (chars "ab") (chars "cd") [7]). reflexivity. Defined.

(** ** RPC tables *)

Lemma index_entries_skip (before rest : list IndexEntry) (name : string) (info : RPCInfo) :
  forallb (fun e => negb (String.eqb name (ie_func e))) before = true ->
  0 <= index info < 2 ^ 16 ->
  index_entries (before ++ rest) name info
  = index_entries rest name
      (set_index info (wrap_u 16 (index info + Z.of_nat (length before)))).
Proof.
  revert info. induction before as [| e before IH]; intros info Hno Hr.
  - simpl. unfold set_index, wrap_u. rewrite Z.add_0_r, Z.mod_small by lia.
    now destruct info.
  - simpl in Hno. apply andb_prop in Hno. destruct Hno as [He Hno].
    apply negb_true_iff in He. cbn [app index_entries]. rewrite He.
    rewrite IH; [| assumption | simpl; unfold wrap_u; apply Z.mod_pos_bound; lia].
    f_equal. unfold set_index. simpl. f_equal.
    unfold wrap_u. rewrite Zplus_mod_idemp_l. f_equal. lia.
Qed.

Lemma index_entries_at
    (before after : list IndexEntry) (e : IndexEntry) (name : string) (info : RPCInfo) :
  forallb (fun e' => negb (String.eqb name (ie_func e'))) before = true ->
  0 <= index info < 2 ^ 16 ->
  index_entries before name info
    = (false, set_index info (wrap_u 16 (index info + Z.of_nat (length before))))
  /\ (ie_func e = name ->
      index_entries (before ++ e :: after) name info
      = (true, {| index := wrap_u 16 (index info + Z.of_nat (length before));
                  callingMode := ie_mode e;
                  socket := ie_socket e |})).
Proof.
  intros Hno Hr. split.
  - rewrite <- (app_nil_r before) at 1. now rewrite index_entries_skip.
  - intros He. rewrite index_entries_skip by assumption.
    cbn [index_entries]. subst name. now rewrite String.eqb_refl.
Qed.

(** X9. The [RPC_INDEX] lines of a class number its functions by position:
    a name first declared on line [p] (counting from 0) is found, with that
    line's calling mode and socket and with the incoming index advanced by
    [p]; a name on no line is not found, and the index has been advanced by
    the number of lines, ready for the next class. The index is a [uint16]
    and wraps. *)
Theorem index_entries_positional
    (before after : list IndexEntry) (e : IndexEntry) (name : string) (info : RPCInfo) :
  forallb (fun e' => negb (String.eqb name (ie_func e'))) before = true ->
  0 <= index info < 2 ^ 16 ->
  index_entries before name info
    = (false, set_index info (wrap_u 16 (index info + Z.of_nat (length before))))
  /\ (ie_func e = name ->
      index_entries (before ++ e :: after) name info
      = (true, {| index := wrap_u 16 (index info + Z.of_nat (length before));
                  callingMode := ie_mode e;
                  socket := ie_socket e |})).
Proof. apply index_entries_at. Qed.

Lemma index_entries_positional_witness :
  index_entries (rpc_index leaf_class) "MoveTo" (set_index unset_info 65535)
    = (true, {| index := 0; callingMode := RPCCallingMode.Owner; socket := UDP |}).
Proof.
  apply (index_entries_positional
           [ {| ie_socket := TCP; ie_mode := RPCCallingMode.Broadcast; ie_func := "Shout" |} ]
           []
           {| ie_socket := UDP; ie_mode := RPCCallingMode.Owner; ie_func := "MoveTo" |}
           "MoveTo" (set_index unset_info 65535));
    [reflexivity | simpl; lia | reflexivity].
Defined.

Lemma select_entry_nth (es : list ExecEntry) (p : nat) :
  Z.of_nat p < 2 ^ 16 ->
  select_entry es (Z.of_nat p) = nth_error es p.
Proof.
  revert p. induction es as [| e es IH]; intros p Hp.
  - now destruct p.
  - destruct p as [| p]; [reflexivity |].
    cbn [select_entry nth_error].
    assert (Hnz : (Z.of_nat (S p) =? 0) = false) by (apply Z.eqb_neq; lia).
    rewrite Hnz.
    replace (wrap_u 16 (Z.of_nat (S p) - 1)) with (Z.of_nat p)
      by (unfold wrap_u; rewrite Z.mod_small; lia).
    apply IH. lia.
Qed.

Lemma index_entries_found (es : list IndexEntry) (name : string) (info info' : RPCInfo) :
  index_entries es name info = (true, info') ->
  exists before e after,
    es = before ++ e :: after
    /\ forallb (fun e' => negb (String.eqb name (ie_func e'))) before = true
    /\ ie_func e = name.
Proof.
  revert info. induction es as [| e es IH]; intros info H.
  - discriminate.
  - cbn [index_entries] in H. destruct (String.eqb name (ie_func e)) eqn:He.
    + exists [], e, es. repeat split. symmetry. now apply String.eqb_eq.
    + apply IH in H. destruct H as (before & e0 & after & -> & Hno & Hn).
      exists (e :: before), e0, after. repeat split; auto.
      simpl. now rewrite He.
Qed.

(** X10. Within one class the two tables agree. If the [RPC_INDEX] lines
    and the [RPC_EXEC] lines name the same functions in the same order, the
    index the first assign to a function, counted from 0, is the
    [__TEMP_ID] at which the second stop at an entry for that function. *)
Theorem index_exec_agree (c : NetClass) (func : string) (info info' : RPCInfo) :
  map ie_func (rpc_index c) = map ee_func (rpc_exec c) ->
  Z.of_nat (length (rpc_index c)) < 2 ^ 16 ->
  index info = 0 ->
  index_entries (rpc_index c) func info = (true, info') ->
  exists e, select_entry (rpc_exec c) (index info') = Some e /\ ee_func e = func.
Proof.
  intros Halign Hlen H0 Hfound.
  destruct (index_entries_found _ _ _ _ Hfound) as (before & ie & after & Hes & Hno & Hname).
  rewrite Hes in Hfound, Halign, Hlen.
  destruct (index_entries_at before after ie func info Hno ltac:(lia)) as [_ Hpos].
  rewrite (Hpos Hname) in Hfound. injection Hfound as <-. cbn [index].
  rewrite length_app in Hlen. simpl in Hlen.
  rewrite H0, Z.add_0_l. unfold wrap_u at 1. rewrite Z.mod_small by lia.
  rewrite select_entry_nth by lia.
  assert (Hnth : nth_error (map ee_func (rpc_exec c)) (length before) = Some func).
  { rewrite <- Halign, map_app. cbn [map].
    rewrite nth_error_app2 by (rewrite length_map; lia).
    rewrite length_map, Nat.sub_diag. simpl. now f_equal. }
  rewrite nth_error_map in Hnth.
  destruct (nth_error (rpc_exec c) (length before)) as [e |]; [| discriminate].
  exists e. split; [reflexivity |]. simpl in Hnth. congruence.
Qed.

Lemma index_exec_agree_witness :
  exists e,
    select_entry (rpc_exec leaf_class)
      (index {| index := 1; callingMode := RPCCallingMode.Owner; socket := UDP |}) = Some e
    /\ ee_func e = "MoveTo".
Proof.
  apply (index_exec_agree leaf_class "MoveTo" (set_index unset_info 0)
           {| index := 1; callingMode := RPCCallingMode.Owner; socket := UDP |});
    reflexivity.
Defined.

(** ** RPC dispatch, further *)

(** X11. An index at or beyond the number of slots the whole hierarchy
    declares is not found: [ExecuteRPC] returns false, calls nothing and
    leaves the parameter buffer as it was. *)
Theorem ExecuteRPC_index_past_all_slots (chain : list NetClass) (id : Z) (buffer : list Z) :
  slot_count chain <= id < 2 ^ 16 ->
  ExecuteRPC chain id buffer = Ok ((false, id, []), buffer).
Proof.
  intros H. rewrite ExecuteRPC_dispatch. now rewrite dispatch_past_end.
Qed.

Lemma ExecuteRPC_index_past_all_slots_witness :
  ExecuteRPC [leaf_class; parent_class] 3 [1; 2; 3] = Ok ((false, 3, []), [1; 2; 3]).
Proof.
  apply (ExecuteRPC_index_past_all_slots [leaf_class; parent_class] 3 [1; 2; 3]).
  simpl. lia.
Defined.

(** X12. Whatever the hierarchy, the index and the parameters: when
    [ExecuteRPC] returns, it has called at most one function, none at all
    if it reports false, and [id] still holds the index it was given. *)
Theorem ExecuteRPC_at_most_one_call (chain : list NetClass) (id : Z) (buffer : list Z) :
  match ExecuteRPC chain id buffer with
  | Ok ((handled, id', calls), _) =>
      id' = id /\ (length calls <= 1)%nat /\ (handled = false -> calls = [])
  | Undefined _ => True
  end.
Proof.
  rewrite ExecuteRPC_dispatch. destruct (dispatch chain id) as [e |].
  - unfold exec_entry, bind, ret.
    destruct (Decode_params (ee_params e) buffer) as [[[ok args] b] | f]; [| exact I].
    destruct ok; simpl; repeat split; auto; discriminate.
  - simpl. repeat split; auto.
Qed.

(** ** RPC parameters on the wire *)

Lemma Encode_value_app (a : Value) (buffer : list Z) :
  portable a = true ->
  Encode_value buffer a = buffer ++ Encode_value [] a.
Proof.
  intros Hp. destruct a as [T v | s]; simpl.
  - apply Encode_app.
  - simpl in Hp. apply andb_prop in Hp. destruct Hp as [Hs _].
    unfold Encode_string, Encode_cstr, Encode_cstr_cap.
    now rewrite !Encode_cstr_loop_spec by assumption.
Qed.

Lemma fold_Encode_value_app (args : list Value) (buffer : list Z) :
  forallb portable args = true ->
  fold_left Encode_value args buffer = buffer ++ fold_left Encode_value args [].
Proof.
  revert buffer. induction args as [| a args IH]; intros buffer Hp.
  - simpl. now rewrite app_nil_r.
  - simpl in Hp. apply andb_prop in Hp. destruct Hp as [Ha Hp].
    cbn [fold_left]. rewrite IH by assumption.
    rewrite (IH (Encode_value [] a)) by assumption.
    rewrite (Encode_value_app a buffer) by assumption.
    now rewrite app_assoc.
Qed.

Lemma Decode_param_Flip_Encode (a : Value) (rest : list Z) :
  portable a = true ->
  Z.of_nat (length rest) + STR_MAX_ENCODE_LEN < 2 ^ 32 ->
  Decode_param (type_of a) (Flip (Encode_value [] a ++ rest)) = Ok ((true, a), Flip rest).
Proof.
  intros Hp Hb. destruct a as [T v | s]; simpl in Hp;
    apply andb_prop in Hp; destruct Hp as [H1 H2].
  - apply Z.leb_le in H1. cbn [type_of Decode_param Encode_value].
    unfold Flip. rewrite rev_app_distr.
    erewrite bind_eq;
      [| apply Decode_rev_Encode;
         [ intros ->; simpl in H1; lia
         | intros ->; simpl in H1; lia
         | assumption
         | rewrite length_rev; unfold STR_MAX_ENCODE_LEN in Hb; lia ]].
    reflexivity.
  - apply Z.ltb_lt in H2. cbn [type_of Decode_param Encode_value].
    unfold Encode_string, Encode_cstr.
    erewrite bind_eq; [| apply Decode_Flip_Encode_cstr;
                         [unfold STR_MAX_ENCODE_LEN; lia | assumption | assumption]].
    unfold ret. cbn [fst snd]. rewrite firstn_all2; [reflexivity |].
    unfold STR_MAX_ENCODE_LEN in *. lia.
Qed.

Lemma Decode_params_Flip_Encode (args : list Value) (rest : list Z) :
  forallb portable args = true ->
  Z.of_nat (length (fold_left Encode_value args [])) + Z.of_nat (length rest)
    + STR_MAX_ENCODE_LEN < 2 ^ 32 ->
  Decode_params (map type_of args) (Flip (fold_left Encode_value args [] ++ rest))
  = Ok ((true, args), Flip rest).
Proof.
  revert rest. induction args as [| a args IH]; intros rest Hp Hb.
  - reflexivity.
  - simpl in Hp. apply andb_prop in Hp. destruct Hp as [Ha Hp].
    cbn [fold_left] in Hb |- *.
    rewrite (fold_Encode_value_app args (Encode_value [] a)) in Hb |- * by assumption.
    rewrite length_app in Hb. rewrite <- app_assoc.
    cbn [map Decode_params].
    erewrite bind_eq; [| apply Decode_param_Flip_Encode;
                         [assumption | rewrite length_app; lia]].
    cbn [fst snd].
    erewrite bind_eq; [| apply IH; [assumption | lia]].
    reflexivity.
Qed.

(** X13. The parameters of a call survive the wire. Encoded one after the
    other, as the [CallRPC_...Param] macros do, and flipped, as the receive
    path does, they decode in declared order to the very arguments, and the
    buffer is left with what was encoded after them. This holds for values
    of the types of at most 32 bits and for NUL-free strings shorter than
    the cap. *)
Theorem RPC_parameters_roundtrip (args : list Value) (rest : list Z) :
  forallb portable args = true ->
  Z.of_nat (length (fold_left Encode_value args [])) + Z.of_nat (length rest)
    + STR_MAX_ENCODE_LEN < 2 ^ 32 ->
  Decode_params (map type_of args) (Flip (fold_left Encode_value args [] ++ rest))
  = Ok ((true, args), Flip rest).
Proof. apply Decode_params_Flip_Encode. Qed.

Lemma RPC_parameters_roundtrip_witness :
  Decode_params (map type_of [VPrim int16 (-3); VString (chars "go"); VPrim float 1065353216])
    (Flip (fold_left Encode_value
             [VPrim int16 (-3); VString (chars "go"); VPrim float 1065353216] [] ++ [42]))
  = Ok ((true, [VPrim int16 (-3); VString (chars "go"); VPrim float 1065353216]), Flip [42]).
Proof.
  apply (RPC_parameters_roundtrip
           [VPrim int16 (-3); VString (chars "go"); VPrim float 1065353216] [42]);
    reflexivity.
Defined.

(** X14. From caller to callee, for arguments the encoding carries over
    unchanged: values of the types of at most 32 bits and NUL-free strings
    shorter than the cap (a 64-bit argument cannot be decoded and a longer
    string arrives cut, so they are excluded), in a parameter buffer of
    fewer than 2^32 - 128 bytes. When [__CallRPC] remotes a call with such
    arguments, the parameter buffer it hands to [RemoteCallRPC], once
    flipped, makes an [ExecuteRPC] that stops at an entry for the same
    function with the same parameter types call that function with the
    caller's arguments, and uses the buffer up. *)
Theorem CallRPC_then_ExecuteRPC
    (this object : NetSerializableBase) (chain receiver : list NetClass)
    (func : string) (args : list Value) (info info' : RPCInfo)
    (params : list Z) (id : Z) :
  CallRPC this object chain func args info = [RemoteCallRPC info' params] ->
  forallb portable args = true ->
  Z.of_nat (length params) + STR_MAX_ENCODE_LEN < 2 ^ 32 ->
  dispatch receiver id = Some {| ee_func := func; ee_params := map type_of args |} ->
  ExecuteRPC receiver id (Flip params)
  = Ok ((true, id, [ {| call_func := func; call_args := args |} ]), []).
Proof.
  intros Hcall Hp Hb Hd.
  assert (Hparams : params = fold_left Encode_value args []).
  { unfold CallRPC in Hcall.
    destruct (fst (RegisterRPCs chain func info)); [| discriminate].
    destruct (negb (GetNetworkID this =? 0)); [| discriminate].
    destruct (_ || _); [discriminate |].
    destruct (_ || _); [| discriminate].
    now injection Hcall as _ <-. }
  subst params. rewrite ExecuteRPC_dispatch, Hd.
  unfold exec_entry. cbn [ee_params ee_func].
  pose proof (Decode_params_Flip_Encode args [] Hp) as Hrt.
  rewrite app_nil_r in Hrt. simpl length in Hrt.
  unfold bind. rewrite Hrt by lia. reflexivity.
Qed.

Lemma CallRPC_then_ExecuteRPC_witness :
  ExecuteRPC [leaf_class] 1
    (Flip (fold_left Encode_value [VPrim float 1065353216; VPrim float 1073741824] []))
  = Ok ((true, 1, [ {| call_func := "MoveTo";
                       call_args := [VPrim float 1065353216; VPrim float 1073741824] |} ]), []).
Proof.
  apply (CallRPC_then_ExecuteRPC
           {| m_netRole := NetRole.RemotePuppet; m_networkOwnerId := 2; m_networkId := 7 |}
           {| m_netRole := NetRole.RemotePuppet; m_networkOwnerId := 2; m_networkId := 7 |}
           [leaf_class] [leaf_class] "MoveTo"
           [VPrim float 1065353216; VPrim float 1073741824] unset_info
           {| index := 1; callingMode := RPCCallingMode.Owner; socket := UDP |}
           (fold_left Encode_value [VPrim float 1065353216; VPrim float 1073741824] []) 1);
    reflexivity.
Defined.

(** ** Registration across a hierarchy *)

Lemma index_entries_fst (es : list IndexEntry) (name : string) (info : RPCInfo) :
  fst (index_entries es name info)
  = existsb (fun e => String.eqb name (ie_func e)) es.
Proof.
  revert info. induction es as [| e es IH]; intros info; simpl.
  - reflexivity.
  - destruct (String.eqb name (ie_func e)); [reflexivity | apply IH].
Qed.

Lemma RegisterRPCs_fst (chain : list NetClass) (func : string) (info : RPCInfo) :
  fst (RegisterRPCs chain func info) = declares chain func.
Proof.
  induction chain as [| c super IH]; simpl.
  - reflexivity.
  - unfold declares in *. simpl. rewrite <- IH.
    destruct (fst (RegisterRPCs super func info)).
    + simpl. now rewrite orb_true_r.
    + rewrite index_entries_fst. now rewrite orb_false_r.
Qed.

(** X15. [RegisterRPCs] reports a function as registered exactly when some
    class of the hierarchy has an [RPC_INDEX] line with its name; the
    [RPCInfo] it is handed plays no part in that. *)
Theorem RegisterRPCs_finds_declared (chain : list NetClass) (func : string) (info : RPCInfo) :
  fst (RegisterRPCs chain func info) = declares chain func.
Proof. apply RegisterRPCs_fst. Qed.

Lemma index_count_nonneg (chain : list NetClass) : 0 <= index_count chain.
Proof.
  induction chain as [| c chain IH]; [simpl; lia |].
  change (index_count (c :: chain))
    with (Z.of_nat (length (rpc_index c)) + index_count chain).
  lia.
Qed.

Lemma RegisterRPCs_not_declared (chain : list NetClass) (func : string) (info : RPCInfo) :
  declares chain func = false ->
  RegisterRPCs chain func info
  = (false, set_index info (wrap_u 16 (index_count chain))).
Proof.
  induction chain as [| c super IH]; intros Hd.
  - reflexivity.
  - unfold declares in Hd. simpl in Hd. apply orb_false_elim in Hd.
    destruct Hd as [Hc Hsuper]. cbn [RegisterRPCs]. rewrite (IH Hsuper). cbn [fst snd].
    assert (Hno : forallb (fun e => negb (String.eqb func (ie_func e))) (rpc_index c) = true).
    { clear -Hc. induction (rpc_index c) as [| e es IHes]; [reflexivity |].
      simpl in *. apply orb_false_elim in Hc. destruct Hc as [-> Hes]. now apply IHes. }
    destruct (index_entries_at (rpc_index c) [] {| ie_socket := TCP;
                ie_mode := RPCCallingMode.Unknown; ie_func := func |} func
                (set_index info (wrap_u 16 (index_count super))) Hno) as [Hmiss _].
    { simpl. unfold wrap_u. apply Z.mod_pos_bound. lia. }
    rewrite Hmiss. unfold set_index. cbn [index callingMode socket index_count fold_right].
    do 2 f_equal. unfold wrap_u. rewrite Zplus_mod_idemp_l. f_equal.
    fold (index_count super). lia.
Qed.

(** X16. The index of a function is its position in the whole hierarchy,
    the root's lines first: a function that no ancestor declares and that
    the leaf first declares on its line [k] gets the number of the
    ancestors' [RPC_INDEX] lines plus [k], with the calling mode and socket
    of that line. *)
Theorem RegisterRPCs_index_is_position
    (ancestors : list NetClass) (leaf : NetClass) (before after : list IndexEntry)
    (e : IndexEntry) (info : RPCInfo) :
  declares ancestors (ie_func e) = false ->
  rpc_index leaf = before ++ e :: after ->
  forallb (fun e' => negb (String.eqb (ie_func e) (ie_func e'))) before = true ->
  index_count ancestors + Z.of_nat (length before) < 2 ^ 16 ->
  RegisterRPCs (leaf :: ancestors) (ie_func e) info
  = (true, {| index := index_count ancestors + Z.of_nat (length before);
              callingMode := ie_mode e;
              socket := ie_socket e |}).
Proof.
  intros Hanc Hleaf Hno Hlt.
  pose proof (index_count_nonneg ancestors) as H0.
  cbn [RegisterRPCs]. rewrite (RegisterRPCs_not_declared _ _ _ Hanc). cbn [fst snd].
  rewrite Hleaf.
  destruct (index_entries_at before after e (ie_func e)
              (set_index info (wrap_u 16 (index_count ancestors))) Hno) as [_ Hhit].
  { simpl. unfold wrap_u. apply Z.mod_pos_bound. lia. }
  rewrite (Hhit eq_refl). cbn [set_index index].
  do 2 f_equal. unfold wrap_u. rewrite Zplus_mod_idemp_l. apply Z.mod_small. lia.
Qed.

Lemma RegisterRPCs_index_is_position_witness :
  RegisterRPCs [leaf_class; parent_class] "MoveTo" unset_info
  = (true, {| index := index_count [parent_class] + Z.of_nat (length [
                {| ie_socket := TCP; ie_mode := RPCCallingMode.Broadcast; ie_func := "Shout" |} ]);
              callingMode := RPCCallingMode.Owner;
              socket := UDP |}).
Proof.
  apply (RegisterRPCs_index_is_position [parent_class] leaf_class
           [ {| ie_socket := TCP; ie_mode := RPCCallingMode.Broadcast; ie_func := "Shout" |} ]
           []
           {| ie_socket := UDP; ie_mode := RPCCallingMode.Owner; ie_func := "MoveTo" |}
           unset_info);
    reflexivity.
Defined.

(** ** The CallRPC macros, further *)

(** X17. Calling a function that no class of the hierarchy declares as an
    RPC has one effect, the "Cannot call function" error, whatever the
    object's identity and role: nothing is called and nothing is remoted. *)
Theorem CallRPC_undeclared_logs_error
    (this object : NetSerializableBase) (chain : list NetClass)
    (func : string) (args : list Value) (info : RPCInfo) :
  declares chain func = false ->
  CallRPC this object chain func args info
  = [LOG_ERROR ("Cannot call function '" ++ func
                ++ "' as it is not a registered RPC for the given object")].
Proof.
  intros Hd. unfold CallRPC. now rewrite RegisterRPCs_fst, Hd.
Qed.

Lemma CallRPC_undeclared_logs_error_witness :
  CallRPC {| m_netRole := NetRole.HostOwner; m_networkOwnerId := 0; m_networkId := 3 |}
          {| m_netRole := NetRole.HostOwner; m_networkOwnerId := 0; m_networkId := 3 |}
          [leaf_class; parent_class] "Jump" [] unset_info
  = [LOG_ERROR ("Cannot call function '" ++ "Jump"
                ++ "' as it is not a registered RPC for the given object")].
Proof.
  apply (CallRPC_undeclared_logs_error
           {| m_netRole := NetRole.HostOwner; m_networkOwnerId := 0; m_networkId := 3 |}
           {| m_netRole := NetRole.HostOwner; m_networkOwnerId := 0; m_networkId := 3 |}
           [leaf_class; parent_class] "Jump" [] unset_info).
  reflexivity.
Defined.

(** X18. On the host, with a non-zero network identity, a registered call
    is never refused. A Host call is made directly, and so is an Owner call
    when the host owns the object; every other call, a Broadcast included,
    is handed to [RemoteCallRPC] with the encoded arguments and is not made
    locally. *)
Theorem CallRPC_on_host
    (this object : NetSerializableBase) (chain : list NetClass)
    (func : string) (args : list Value) (info : RPCInfo) :
  GetNetworkID this <> 0 ->
  declares chain func = true ->
  IsNetHost object = true ->
  CallRPC this object chain func args info
  = match callingMode (snd (RegisterRPCs chain func info)) with
    | RPCCallingMode.Host => [Invoke {| call_func := func; call_args := args |}]
    | RPCCallingMode.Owner =>
        if IsNetOwner object then [Invoke {| call_func := func; call_args := args |}]
        else [RemoteCallRPC (snd (RegisterRPCs chain func info))
                (fold_left Encode_value args [])]
    | _ => [RemoteCallRPC (snd (RegisterRPCs chain func info))
              (fold_left Encode_value args [])]
    end.
Proof.
  intros Hid Hd Hhost. unfold CallRPC.
  rewrite RegisterRPCs_fst, Hd, Hhost. apply Z.eqb_neq in Hid. rewrite Hid.
  cbn [negb andb orb].
  destruct (callingMode (snd (RegisterRPCs chain func info)));
    destruct (IsNetOwner object); reflexivity.
Qed.

Lemma CallRPC_on_host_witness :
  CallRPC {| m_netRole := NetRole.HostPuppet; m_networkOwnerId := 2; m_networkId := 7 |}
          {| m_netRole := NetRole.HostPuppet; m_networkOwnerId := 2; m_networkId := 7 |}
          [leaf_class; parent_class] "Shout" [] unset_info
  = match callingMode (snd (RegisterRPCs [leaf_class; parent_class] "Shout" unset_info)) with
    | RPCCallingMode.Host => [Invoke {| call_func := "Shout"; call_args := [] |}]
    | RPCCallingMode.Owner =>
        if IsNetOwner {| m_netRole := NetRole.HostPuppet; m_networkOwnerId := 2;
                         m_networkId := 7 |}
        then [Invoke {| call_func := "Shout"; call_args := [] |}]
        else [RemoteCallRPC (snd (RegisterRPCs [leaf_class; parent_class] "Shout" unset_info))
                (fold_left Encode_value [] [])]
    | _ => [RemoteCallRPC (snd (RegisterRPCs [leaf_class; parent_class] "Shout" unset_info))
              (fold_left Encode_value [] [])]
    end.
Proof.
  apply (CallRPC_on_host
           {| m_netRole := NetRole.HostPuppet; m_networkOwnerId := 2; m_networkId := 7 |}
           {| m_netRole := NetRole.HostPuppet; m_networkOwnerId := 2; m_networkId := 7 |}
           [leaf_class; parent_class] "Shout" [] unset_info);
    [discriminate | reflexivity | reflexivity].
Defined.

(** ** Host session, further *)

Lemma Encode_string_literal (buffer : list Z) (s : list Z) :
  forallb is_char s = true ->
  Encode_string buffer s
  = buffer ++ map (wrap_u 8) (firstn (Z.to_nat (STR_MAX_ENCODE_LEN - 1)) s) ++ [0].
Proof.
  intros H. unfold Encode_string, Encode_cstr, Encode_cstr_cap.
  now apply Encode_cstr_loop_spec.
Qed.

Section SessionProperties.

Context (Version : Type) (Version_eqb : Version -> Version -> bool)
        (Decode_Version : M (bool * Version))
        (engine_VersionNo game_VersionNo : Version)
        (code_value : NetResponseCode.t -> Z)
        (request_of : Z -> option NetRequestType).

Local Abbreviation VerifyHandshake' :=
  (VerifyHandshake Version Version_eqb Decode_Version engine_VersionNo
     game_VersionNo code_value request_of).
Local Abbreviation ForwardToClient' :=
  (ForwardToClient Version Version_eqb Decode_Version engine_VersionNo
     game_VersionNo code_value request_of).
Local Abbreviation forward_all' :=
  (forward_all Version Version_eqb Decode_Version engine_VersionNo
     game_VersionNo code_value request_of).
Local Abbreviation Update' :=
  (Update Version Version_eqb Decode_Version engine_VersionNo
     game_VersionNo code_value request_of).

Ltac handshake_cases b :=
  unfold VerifyHandshake, bind, ret;
  destruct (Decode_Version b) as [[[ok1 ev] b1] | f1]; [| try exact I; try discriminate];
  [destruct ok1; cbn [fst snd negb];
   [destruct (Decode_Version b1) as [[[ok2 gv] b2] | f2]; [| try exact I; try discriminate];
    [destruct ok2; cbn [fst snd negb];
     [destruct (Decode_uint16 0 b2) as [[[ok3 rt] b3] | f3]; [| try exact I; try discriminate];
      [destruct ok3; cbn [fst snd negb];
       [destruct (negb (Version_eqb engine_VersionNo ev)
                  || negb (Version_eqb game_VersionNo gv));
        [| destruct (request_of rt) as [[| |] |]] |] ] |] ] |] ].


Lemma VerifyHandshake_Accepted (s : NetHostSession) (src : Z * Z) (b b' : list Z)
    (code : NetResponseCode.t) (sent : list Sent) :
  VerifyHandshake' s src b = Ok ((code, sent), b') ->
  NetResponseCode.eqb code NetResponseCode.Accepted = true ->
  sent = [(Encode_uint16 [] (code_value NetResponseCode.Accepted), src)].
Proof.
  intros H Hacc. revert H.
  handshake_cases b; intros H; injection H as <- <- <-; try discriminate Hacc.
  reflexivity.
Qed.

(** What a call of [ForwardToClient] can do to the session. *)
Lemma ForwardToClient_outcome (s s' : NetHostSession) (src : Z * Z) (st : SocketType)
    (b b' : list Z) (sent : list Sent) :
  ForwardToClient' s src st b = Ok ((s', sent), b') ->
  (exists c, m_clientLookup s !! src = Some (Some c) /\ s' = s /\ sent = [] /\ b' = b)
  \/ ((m_clientLookup s !! src = None \/ m_clientLookup s !! src = Some None)
      /\ maxPlayerCount s' = maxPlayerCount s
      /\ ((m_clients s' = m_clients s
           /\ m_clientLookup s' = <[src := None]> (m_clientLookup s)
           /\ (st = UDP -> sent = []))
          \/ (st = TCP
              /\ m_clients s' = m_clients s ++ [ {| client_identity := src |} ]
              /\ m_clientLookup s'
                 = <[src := Some {| client_identity := src |}]> (m_clientLookup s)
              /\ sent = [(Encode_uint16 [] (code_value NetResponseCode.Accepted), src)]))).
Proof.
  destruct s as [cl lk mx]. unfold ForwardToClient, GetClient, lookup_or_insert.
  cbn [m_clientLookup m_clients maxPlayerCount].
  destruct (lk !! src) as [[c |] |] eqn:Hl; cbn [fst snd].
  - intros H. injection H as <- <- <-. left. exists c. auto.
  - intros H. right. split; [now right |].
    destruct st; cbn [SocketType_eqb] in H.
    + unfold bind in H.
      destruct (VerifyHandshake' _ src b) as [[[code sent0] b0] | f] eqn:Hv; [| discriminate].
      cbn [fst snd] in H.
      destruct (NetResponseCode.eqb code NetResponseCode.Accepted) eqn:Hacc;
        injection H as <- <- <-; cbn; split; try reflexivity.
      * right. repeat split. eapply VerifyHandshake_Accepted; eauto.
      * left. repeat split; [now rewrite insert_id | discriminate].
    + injection H as <- <- <-. cbn. split; [reflexivity |]. left.
      repeat split. now rewrite insert_id.
  - intros H. right. split; [now left |].
    destruct st; cbn [SocketType_eqb] in H.
    + unfold bind in H.
      destruct (VerifyHandshake' _ src b) as [[[code sent0] b0] | f] eqn:Hv; [| discriminate].
      cbn [fst snd] in H.
      destruct (NetResponseCode.eqb code NetResponseCode.Accepted) eqn:Hacc;
        injection H as <- <- <-; cbn; split; try reflexivity.
      * right. repeat split; [now rewrite insert_insert_eq |].
        eapply VerifyHandshake_Accepted; eauto.
      * left. repeat split. discriminate.
    + injection H as <- <- <-. cbn. split; [reflexivity |]. left. repeat split.
Qed.

Lemma untracked_source (s : NetHostSession) (src : Z * Z) :
  tracked_ok s ->
  m_clientLookup s !! src = None \/ m_clientLookup s !! src = Some None ->
  Forall (fun c => client_identity c <> src) (m_clients s).
Proof.
  intros [Hall _] Hsrc. eapply Forall_impl; [exact Hall |].
  intros c Hc Heq. cbn in Hc. rewrite Heq in Hc. destruct Hsrc as [H | H]; congruence.
Qed.

Lemma ForwardToClient_tracked (s s' : NetHostSession) (src : Z * Z) (st : SocketType)
    (b b' : list Z) (sent : list Sent) :
  tracked_ok s ->
  ForwardToClient' s src st b = Ok ((s', sent), b') ->
  tracked_ok s'
  /\ exists new, m_clients s' = m_clients s ++ new /\ (length new <= 1)%nat
                 /\ (st = UDP -> new = [] /\ sent = []).
Proof.
  intros Hok H. apply ForwardToClient_outcome in H.
  destruct H as [(c & Hl & -> & -> & ->) | (Hsrc & _ & [(Hcl & Hlk & Hudp) | (Htcp & Hcl & Hlk & Hsent)])].
  - split; [assumption |]. exists []. rewrite app_nil_r. repeat split; auto.
  - pose proof (untracked_source s src Hok Hsrc) as Hne.
    destruct Hok as [Hall Hnd]. split.
    + split; [| now rewrite Hcl].
      rewrite Hcl, Hlk. rewrite Forall_forall in *. intros c Hc.
      rewrite lookup_insert_ne by (intros Heq; apply (Hne c Hc); now symmetry).
      now apply Hall.
    + exists []. rewrite app_nil_r. repeat split; auto.
  - pose proof (untracked_source s src Hok Hsrc) as Hne.
    destruct Hok as [Hall Hnd]. split.
    + split.
      * rewrite Hcl, Hlk. apply Forall_app. split.
        -- rewrite Forall_forall in *. intros c Hc.
           rewrite lookup_insert_ne by (intros Heq; apply (Hne c Hc); now symmetry).
           now apply Hall.
        -- constructor; [| constructor]. cbn. apply lookup_insert_eq.
      * rewrite Hcl, map_app. cbn. apply NoDup_app. repeat split.
        -- exact Hnd.
        -- intros x Hx Hx'. apply list_elem_of_singleton in Hx'. subst x.
           apply list_elem_of_fmap in Hx. destruct Hx as (c & Hc1 & Hc2).
           rewrite Forall_forall in Hne. apply (Hne c); [exact Hc2 | now symmetry].
        -- apply NoDup_singleton.
    + exists [ {| client_identity := src |} ]. repeat split; auto; subst st; discriminate.
Qed.

(** X20. [ForwardToClient] keeps the list of tracked clients and the lookup
    table in step. If every tracked client is what the table holds for its
    identity and no identity is tracked twice, the same is true afterwards;
    the list is only ever appended to, by at most one client per packet,
    and a packet from the unreliable channel adds none and is not
    answered. *)
Theorem ForwardToClient_keeps_tracking (s s' : NetHostSession) (src : Z * Z)
    (st : SocketType) (b b' : list Z) (sent : list Sent) :
  tracked_ok s ->
  ForwardToClient' s src st b = Ok ((s', sent), b') ->
  tracked_ok s'
  /\ exists new, m_clients s' = m_clients s ++ new /\ (length new <= 1)%nat
                 /\ (st = UDP -> new = [] /\ sent = []).
Proof. apply ForwardToClient_tracked. Qed.

(** X21. A client is added to the tracked list only by a packet on the
    reliable channel that was answered [Accepted]: either the list is as
    before, or the socket is TCP, the one new client is the packet's
    source, the lookup table now maps the source to it, and the single
    thing sent is the [Accepted] code, to the source. *)
Theorem ForwardToClient_admits_only_Accepted (s s' : NetHostSession) (src : Z * Z)
    (st : SocketType) (b b' : list Z) (sent : list Sent) :
  ForwardToClient' s src st b = Ok ((s', sent), b') ->
  m_clients s' = m_clients s
  \/ (st = TCP
      /\ m_clients s' = m_clients s ++ [ {| client_identity := src |} ]
      /\ m_clientLookup s' !! src = Some (Some {| client_identity := src |})
      /\ sent = [(Encode_uint16 [] (code_value NetResponseCode.Accepted), src)]).
Proof.
  intros H. apply ForwardToClient_outcome in H.
  destruct H as [(c & Hl & -> & -> & ->) | (Hsrc & _ & [(Hcl & Hlk & Hudp) | (Htcp & Hcl & Hlk & Hsent)])].
  - now left.
  - now left.
  - right. repeat split; auto. rewrite Hlk. apply lookup_insert_eq.
Qed.

(** X22. A packet from a source that is already tracked is dropped unread,
    on either channel: the session is unchanged, nothing is sent and no
    byte of the packet is popped. In particular a tracked client that sends
    its handshake again gets no answer. *)
Theorem ForwardToClient_known_source (s : NetHostSession) (src : Z * Z) (c : NetClient)
    (st : SocketType) (b : list Z) :
  m_clientLookup s !! src = Some (Some c) ->
  ForwardToClient' s src st b = Ok ((s, []), b).
Proof.
  intros H. destruct s as [cl lk mx].
  unfold ForwardToClient, GetClient, lookup_or_insert. cbn in *. now rewrite H.
Qed.

Lemma forward_all_tracked (packets : list RawNetPacket) (s s' : NetHostSession)
    (st : SocketType) (sent : list Sent) :
  tracked_ok s ->
  forward_all' s packets st = Ok (s', sent) ->
  tracked_ok s'
  /\ exists new, m_clients s' = m_clients s ++ new
                 /\ (length new <= length packets)%nat
                 /\ (st = UDP -> new = [] /\ sent = []).
Proof.
  revert s sent. induction packets as [| p packets IH]; intros s sent Hok H.
  - injection H as <- <-. split; [assumption |]. exists []. rewrite app_nil_r. auto.
  - cbn [forward_all] in H. unfold receive in H.
    destruct (ForwardToClient' s (source p) st (Flip (buffer p)))
      as [[[s1 sent1] b1] | f] eqn:H1; [| discriminate].
    destruct (forward_all' s1 packets st) as [[s2 sent2] | f] eqn:H2; [| discriminate].
    injection H as <- <-.
    destruct (ForwardToClient_tracked _ _ _ _ _ _ _ Hok H1) as (Hok1 & new1 & Hc1 & Hl1 & Hu1).
    destruct (IH _ _ Hok1 H2) as (Hok2 & new2 & Hc2 & Hl2 & Hu2).
    split; [assumption |]. exists (new1 ++ new2). repeat split.
    + now rewrite Hc2, Hc1, app_assoc.
    + rewrite length_app. simpl. lia.
    + destruct (Hu1 H) as [-> _]. now destruct (Hu2 H) as [-> _].
    + destruct (Hu1 H) as [_ ->]. now destruct (Hu2 H) as [_ ->].
Qed.

(** X23. A whole [Update] keeps the tracked clients and the lookup table in
    step as well, and it only appends to the list: at most one client per
    TCP packet polled, none for the UDP packets, and none at all when the
    TCP [Poll] returned false. *)
Theorem Update_keeps_tracking (s s' : NetHostSession)
    (tcp_poll udp_poll : bool * list RawNetPacket) (sent : list Sent) :
  tracked_ok s ->
  Update' s tcp_poll udp_poll = Ok (s', sent) ->
  tracked_ok s'
  /\ exists new, m_clients s' = m_clients s ++ new
                 /\ (length new <= if fst tcp_poll then length (snd tcp_poll) else 0)%nat.
Proof.
  intros Hok H. unfold Update in H.
  destruct tcp_poll as [t tcp], udp_poll as [u udp]. cbn [fst snd] in *.
  assert (H1 : exists s1 sent1,
             (if t then forward_all' s tcp TCP else Ok (s, [])) = Ok (s1, sent1)).
  { destruct (if t then forward_all' s tcp TCP else Ok (s, [])) as [[s1 sent1] | f];
      [eauto | discriminate]. }
  destruct H1 as (s1 & sent1 & H1). rewrite H1 in H.
  assert (Hs1 : tracked_ok s1
                /\ exists new, m_clients s1 = m_clients s ++ new
                               /\ (length new <= if t then length tcp else 0)%nat).
  { destruct t.
    - destruct (forward_all_tracked _ _ _ _ _ Hok H1) as (Hok1 & new & Hc & Hl & _). eauto.
    - injection H1 as <- <-. split; [assumption |]. exists []. now rewrite app_nil_r. }
  destruct Hs1 as (Hok1 & new1 & Hc1 & Hl1).
  destruct u.
  - destruct (forward_all' s1 udp UDP) as [[s2 sent2] | f] eqn:H2; [| discriminate].
    injection H as <- <-.
    destruct (forward_all_tracked _ _ _ _ _ Hok1 H2) as (Hok2 & new2 & Hc2 & _ & Hu).
    destruct (Hu eq_refl) as [-> _]. rewrite app_nil_r in Hc2.
    split; [assumption |]. exists new1. now rewrite Hc2.
  - injection H as <- <-. split; [assumption |]. now exists new1.
Qed.

End SessionProperties.

(** The session after the scenario's client has been admitted. *)
Lemma scenario_admission :
  ForwardToClient Scenario.Version Scenario.Version_eqb Scenario.Decode_Version (1, 0) (1, 0)
    Scenario.code_value Scenario.request_of Scenario.host Scenario.alice TCP
    (Flip Scenario.handshake)
  = Ok (({| m_clients := [ {| client_identity := Scenario.alice |} ];
            m_clientLookup :=
              <[Scenario.alice := Some {| client_identity := Scenario.alice |}]> ∅;
            maxPlayerCount := 8 |},
         [([4; 0], Scenario.alice)]),
        Flip (Encode_string (Encode_string [] (chars "Alice")) [])).
Proof. vm_compute. reflexivity. Qed.

Lemma ForwardToClient_keeps_tracking_witness :
  tracked_ok {| m_clients := [ {| client_identity := Scenario.alice |} ];
                m_clientLookup :=
                  <[Scenario.alice := Some {| client_identity := Scenario.alice |}]> ∅;
                maxPlayerCount := 8 |}
  /\ exists new,
       m_clients {| m_clients := [ {| client_identity := Scenario.alice |} ];
                    m_clientLookup :=
                      <[Scenario.alice := Some {| client_identity := Scenario.alice |}]> ∅;
                    maxPlayerCount := 8 |}
       = m_clients Scenario.host ++ new
       /\ (length new <= 1)%nat
       /\ (TCP = UDP -> new = [] /\ [([4; 0], Scenario.alice)] = []).
Proof.
  apply (ForwardToClient_keeps_tracking
           Scenario.Version Scenario.Version_eqb Scenario.Decode_Version (1, 0) (1, 0)
           Scenario.code_value Scenario.request_of
           Scenario.host _ Scenario.alice TCP (Flip Scenario.handshake)
           (Flip (Encode_string (Encode_string [] (chars "Alice")) []))
           [([4; 0], Scenario.alice)]).
  - split; constructor.
  - exact scenario_admission.
Defined.

Lemma ForwardToClient_admits_only_Accepted_witness :
  m_clients {| m_clients := [ {| client_identity := Scenario.alice |} ];
               m_clientLookup :=
                 <[Scenario.alice := Some {| client_identity := Scenario.alice |}]> ∅;
               maxPlayerCount := 8 |}
  = m_clients Scenario.host
  \/ (TCP = TCP
      /\ m_clients {| m_clients := [ {| client_identity := Scenario.alice |} ];
                      m_clientLookup :=
                        <[Scenario.alice := Some {| client_identity := Scenario.alice |}]> ∅;
                      maxPlayerCount := 8 |}
         = m_clients Scenario.host ++ [ {| client_identity := Scenario.alice |} ]
      /\ m_clientLookup {| m_clients := [ {| client_identity := Scenario.alice |} ];
                           m_clientLookup :=
                             <[Scenario.alice := Some {| client_identity := Scenario.alice |}]> ∅;
                           maxPlayerCount := 8 |} !! Scenario.alice
         = Some (Some {| client_identity := Scenario.alice |})
      /\ [([4; 0], Scenario.alice)]
         = [(Encode_uint16 [] (Scenario.code_value NetResponseCode.Accepted), Scenario.alice)]).
Proof.
  apply (ForwardToClient_admits_only_Accepted
           Scenario.Version Scenario.Version_eqb Scenario.Decode_Version (1, 0) (1, 0)
           Scenario.code_value Scenario.request_of
           Scenario.host _ Scenario.alice TCP (Flip Scenario.handshake)
           (Flip (Encode_string (Encode_string [] (chars "Alice")) []))
           [([4; 0], Scenario.alice)]).
  exact scenario_admission.
Defined.

Lemma ForwardToClient_known_source_witness :
  ForwardToClient Scenario.Version Scenario.Version_eqb Scenario.Decode_Version (1, 0) (1, 0)
    Scenario.code_value Scenario.request_of
    {| m_clients := [ {| client_identity := Scenario.alice |} ];
       m_clientLookup := <[Scenario.alice := Some {| client_identity := Scenario.alice |}]> ∅;
       maxPlayerCount := 8 |}
    Scenario.alice TCP (Flip Scenario.handshake)
  = Ok (({| m_clients := [ {| client_identity := Scenario.alice |} ];
            m_clientLookup :=
              <[Scenario.alice := Some {| client_identity := Scenario.alice |}]> ∅;
            maxPlayerCount := 8 |}, []), Flip Scenario.handshake).
Proof.
  apply (ForwardToClient_known_source
           Scenario.Version Scenario.Version_eqb Scenario.Decode_Version (1, 0) (1, 0)
           Scenario.code_value Scenario.request_of
           {| m_clients := [ {| client_identity := Scenario.alice |} ];
              m_clientLookup :=
                <[Scenario.alice := Some {| client_identity := Scenario.alice |}]> ∅;
              maxPlayerCount := 8 |}
           Scenario.alice {| client_identity := Scenario.alice |} TCP
           (Flip Scenario.handshake)).
  reflexivity.
Defined.

Lemma scenario_update :
  Update Scenario.Version Scenario.Version_eqb Scenario.Decode_Version (1, 0) (1, 0)
    Scenario.code_value Scenario.request_of Scenario.host
    (true, [Scenario.packet; Scenario.packet])
    (true, [ {| source := (1, 2); buffer := [1; 2; 3] |} ])
  = Ok ({| m_clients := [ {| client_identity := Scenario.alice |} ];
           m_clientLookup :=
             <[(1, 2) := None]>
               (<[Scenario.alice := Some {| client_identity := Scenario.alice |}]> ∅);
           maxPlayerCount := 8 |},
        [([4; 0], Scenario.alice)]).
Proof. vm_compute. reflexivity. Qed.

Lemma Update_keeps_tracking_witness :
  tracked_ok {| m_clients := [ {| client_identity := Scenario.alice |} ];
                m_clientLookup :=
                  <[(1, 2) := None]>
                    (<[Scenario.alice := Some {| client_identity := Scenario.alice |}]> ∅);
                maxPlayerCount := 8 |}
  /\ exists new,
       m_clients {| m_clients := [ {| client_identity := Scenario.alice |} ];
                    m_clientLookup :=
                      <[(1, 2) := None]>
                        (<[Scenario.alice := Some {| client_identity := Scenario.alice |}]> ∅);
                    maxPlayerCount := 8 |}
       = m_clients Scenario.host ++ new
       /\ (length new
           <= if fst (true, [Scenario.packet; Scenario.packet])
              then length (snd (true, [Scenario.packet; Scenario.packet])) else 0)%nat.
Proof.
  apply (Update_keeps_tracking
           Scenario.Version Scenario.Version_eqb Scenario.Decode_Version (1, 0) (1, 0)
           Scenario.code_value Scenario.request_of
           Scenario.host _
           (true, [Scenario.packet; Scenario.packet])
           (true, [ {| source := (1, 2); buffer := [1; 2; 3] |} ])
           [([4; 0], Scenario.alice)]).
  - split; constructor.
  - exact scenario_update.
Defined.

Lemma Encode_length (T : PrimType) (v : Z) :
  Z.of_nat (length (Encode T [] v)) = sizeof T.
Proof. now destruct T. Qed.

Lemma Encode_value_length (a : Value) :
  portable a = true ->
  Z.of_nat (length (Encode_value [] a)) <= 128.
Proof.
  intros Hp. destruct a as [T v | s0]; cbn [Encode_value].
  - rewrite Encode_length. destruct T; simpl; lia.
  - simpl in Hp. apply andb_prop in Hp. destruct Hp as [Hs _].
    rewrite Encode_string_literal by assumption.
    cbn [app]. rewrite length_app, length_map, length_firstn.
    cbn [length]. change (Z.to_nat (STR_MAX_ENCODE_LEN - 1)) with 127%nat. lia.
Qed.

Lemma fold_Encode_value_length (args : list Value) :
  forallb portable args = true ->
  Z.of_nat (length (fold_left Encode_value args [])) <= 128 * Z.of_nat (length args).
Proof.
  induction args as [| a args IH]; intros Hp.
  - simpl. lia.
  - simpl in Hp. apply andb_prop in Hp. destruct Hp as [Ha Hp].
    cbn [fold_left].
    rewrite (fold_Encode_value_app args (Encode_value [] a)) by assumption.
    rewrite length_app. pose proof (Encode_value_length a Ha). specialize (IH Hp).
    cbn [length]. lia.
Qed.

Section QueryProperties.

Context (Version : Type) (Version_eqb : Version -> Version -> bool)
        (Decode_Version : M (bool * Version))
        (engine_VersionNo game_VersionNo : Version)
        (code_value : NetResponseCode.t -> Z)
        (request_of : Z -> option NetRequestType).

(** X24. The answer to a [Query] can be read back. For a well-formed
    header with matching versions, [VerifyHandshake] returns [Responded]
    and sends one response to the source; flipped, that response decodes,
    field by field, to the [Responded] code, the number of tracked
    clients, the player limit, the name "Unnamed Server" and a zero flags
    byte, and nothing is left over. The counts must fit a [uint16]. *)
Theorem Query_response_decodes (s : NetHostSession) (src : Z * Z)
    (b0 b1 b2 b3 : list Z) (ev gv : Version) (rt : Z) :
  Decode_Version b0 = Ok ((true, ev), b1) ->
  Decode_Version b1 = Ok ((true, gv), b2) ->
  Decode_uint16 0 b2 = Ok ((true, rt), b3) ->
  Version_eqb engine_VersionNo ev = true ->
  Version_eqb game_VersionNo gv = true ->
  request_of rt = Some Query ->
  in_range uint16 (code_value NetResponseCode.Responded) = true ->
  Z.of_nat (length (m_clients s)) < 2 ^ 16 ->
  in_range uint16 (maxPlayerCount s) = true ->
  exists response,
    VerifyHandshake Version Version_eqb Decode_Version engine_VersionNo game_VersionNo
      code_value request_of s src b0
    = Ok ((NetResponseCode.Responded, [(response, src)]), b3)
    /\ Decode_params [PPrim uint16; PPrim uint16; PPrim uint16; PString; PPrim uint8]
         (Flip response)
       = Ok ((true, [VPrim uint16 (code_value NetResponseCode.Responded);
                     VPrim uint16 (Z.of_nat (length (m_clients s)));
                     VPrim uint16 (maxPlayerCount s);
                     VString (chars "Unnamed Server");
                     VPrim uint8 0]), []).
Proof.
  intros H1 H2 H3 He Hg Hr Hcode Hn Hmax.
  set (args := [VPrim uint16 (code_value NetResponseCode.Responded);
                VPrim uint16 (Z.of_nat (length (m_clients s)));
                VPrim uint16 (maxPlayerCount s);
                VString (chars "Unnamed Server");
                VPrim uint8 0]).
  exists (fold_left Encode_value args []). split.
  - unfold VerifyHandshake, bind. rewrite H1. cbn [fst snd negb]. rewrite H2.
    cbn [fst snd negb]. rewrite H3. cbn [fst snd negb]. rewrite He, Hg, Hr.
    cbn [negb orb]. reflexivity.
  - assert (Hp : forallb portable args = true).
    { subst args. cbn [forallb portable sizeof]. rewrite Hcode, Hmax.
      assert (Hn' : in_range uint16 (Z.of_nat (length (m_clients s))) = true).
      { unfold in_range. apply andb_true_intro.
        split; [apply Z.leb_le | apply Z.ltb_lt]; lia. }
      rewrite Hn'. reflexivity. }
    pose proof (Decode_params_Flip_Encode args [] Hp) as Hrt.
    rewrite app_nil_r in Hrt. apply Hrt.
    pose proof (fold_Encode_value_length args Hp) as Hlen.
    change (Z.of_nat (length args)) with 5 in Hlen.
    unfold STR_MAX_ENCODE_LEN. cbn [length]. lia.
Qed.

End QueryProperties.

Lemma Query_response_decodes_witness :
  exists response,
    VerifyHandshake Scenario.Version Scenario.Version_eqb Scenario.Decode_Version (1, 0) (1, 0)
      Scenario.code_value Scenario.request_of Scenario.host Scenario.alice
      (Flip (Encode_uint16 (Scenario.Encode_Version (Scenario.Encode_Version [] (1, 0)) (1, 0))
               (Scenario.request_value Query)))
    = Ok ((NetResponseCode.Responded, [(response, Scenario.alice)]), [])
    /\ Decode_params [PPrim uint16; PPrim uint16; PPrim uint16; PString; PPrim uint8]
         (Flip response)
       = Ok ((true, [VPrim uint16 (Scenario.code_value NetResponseCode.Responded);
                     VPrim uint16 (Z.of_nat (length (m_clients Scenario.host)));
                     VPrim uint16 (maxPlayerCount Scenario.host);
                     VString (chars "Unnamed Server");
                     VPrim uint8 0]), []).
Proof.
  apply (Query_response_decodes
           Scenario.Version Scenario.Version_eqb Scenario.Decode_Version (1, 0) (1, 0)
           Scenario.code_value Scenario.request_of Scenario.host Scenario.alice
           (Flip (Encode_uint16 (Scenario.Encode_Version (Scenario.Encode_Version [] (1, 0)) (1, 0))
                    (Scenario.request_value Query)))
           (Flip (Encode_uint16 (Scenario.Encode_Version [] (1, 0))
                    (Scenario.request_value Query)))
           (Flip (Encode_uint16 [] (Scenario.request_value Query)))
           []
           (1, 0) (1, 0) 2);
    reflexivity.
Defined.

(** ** The layer's handshake payload *)

Lemma OnDecodeHandshake_Flip_OnEncodeHandshake
    (client host : DefaultNetLayer) (name : list Z) :
  forallb is_char name = true ->
  forallb is_char (m_password client) = true ->
  OnDecodeHandshake host (Flip (OnEncodeHandshake client name []))
  = Ok ((if negb (bool_decide (m_password host = []))
            && negb (bool_decide
                       (m_password host
                        = firstn (Z.to_nat (STR_MAX_ENCODE_LEN - 1)) (m_password client)))
         then (NetResponseCode.BadAuthentication, None)
         else (NetResponseCode.Accepted,
               Some (firstn (Z.to_nat (STR_MAX_ENCODE_LEN - 1)) name))), []).
Proof.
  intros Hname Hpw. unfold OnEncodeHandshake.
  rewrite (Encode_string_literal (Encode_string [] name)) by assumption.
  change (map (wrap_u 8) (firstn (Z.to_nat (STR_MAX_ENCODE_LEN - 1)) (m_password client)) ++ [0])
    with ([] ++ map (wrap_u 8)
                  (firstn (Z.to_nat (STR_MAX_ENCODE_LEN - 1)) (m_password client)) ++ [0]).
  rewrite <- (Encode_string_literal [] (m_password client)) by assumption.
  unfold OnDecodeHandshake.
  erewrite bind_eq;
    [| apply (Decode_Flip_Encode_cstr STR_MAX_ENCODE_LEN name);
       [unfold STR_MAX_ENCODE_LEN; lia | assumption |] ].
  - cbn [fst snd negb].
    rewrite <- (app_nil_r (Encode_string [] (m_password client))).
    erewrite bind_eq;
      [| apply (Decode_Flip_Encode_cstr STR_MAX_ENCODE_LEN (m_password client));
         [unfold STR_MAX_ENCODE_LEN; lia | assumption | unfold STR_MAX_ENCODE_LEN; simpl; lia] ].
    cbn [fst snd negb]. unfold ret.
    destruct (negb (bool_decide (m_password host = [])) && _); reflexivity.
  - rewrite Encode_string_literal by assumption.
    rewrite !length_app, length_map, length_firstn.
    change (Z.to_nat (STR_MAX_ENCODE_LEN - 1)) with 127%nat.
    unfold STR_MAX_ENCODE_LEN. cbn [length]. lia.
Qed.

(** X25. What [OnEncodeHandshake] writes, [OnDecodeHandshake] reads. For a
    name and a client password of fewer than 128 non-NUL characters, the
    flipped payload is consumed entirely, and it is accepted with the
    client's name when the host has no password or the same password as the
    client, and answered [BadAuthentication] otherwise. *)
Theorem handshake_payload_roundtrip (client host : DefaultNetLayer) (name : list Z) :
  forallb is_char name = true ->
  Z.of_nat (length name) < STR_MAX_ENCODE_LEN ->
  forallb is_char (m_password client) = true ->
  Z.of_nat (length (m_password client)) < STR_MAX_ENCODE_LEN ->
  (m_password host = [] \/ m_password host = m_password client ->
   OnDecodeHandshake host (Flip (OnEncodeHandshake client name []))
   = Ok ((NetResponseCode.Accepted, Some name), []))
  /\ (m_password host <> [] -> m_password host <> m_password client ->
      OnDecodeHandshake host (Flip (OnEncodeHandshake client name []))
      = Ok ((NetResponseCode.BadAuthentication, None), [])).
Proof.
  intros Hname Hnl Hpw Hpl. unfold STR_MAX_ENCODE_LEN in Hnl, Hpl.
  rewrite OnDecodeHandshake_Flip_OnEncodeHandshake by assumption.
  change (Z.to_nat (STR_MAX_ENCODE_LEN - 1)) with 127%nat.
  rewrite !firstn_all2 by lia.
  split.
  - intros [H | H].
    + rewrite (bool_decide_eq_true_2 _ H). reflexivity.
    + rewrite (bool_decide_eq_true_2 _ H). now rewrite andb_false_r.
  - intros H1 H2.
    now rewrite (bool_decide_eq_false_2 _ H1), (bool_decide_eq_false_2 _ H2).
Qed.

Lemma handshake_payload_roundtrip_witness :
  (m_password Scenario.layer = [] \/ m_password Scenario.layer = m_password Scenario.layer ->
   OnDecodeHandshake Scenario.layer
     (Flip (OnEncodeHandshake Scenario.layer (chars "Alice") []))
   = Ok ((NetResponseCode.Accepted, Some (chars "Alice")), []))
  /\ (m_password Scenario.layer <> [] -> m_password Scenario.layer <> m_password Scenario.layer ->
      OnDecodeHandshake Scenario.layer
        (Flip (OnEncodeHandshake Scenario.layer (chars "Alice") []))
      = Ok ((NetResponseCode.BadAuthentication, None), [])).
Proof.
  apply (handshake_payload_roundtrip Scenario.layer Scenario.layer (chars "Alice"));
    reflexivity.
Defined.

(** X26. A password of 128 characters or more locks everyone out. The
    encoding cuts the client's password to 127 characters, so a host with
    such a password answers [BadAuthentication] even to a client that is
    configured with the very same password. *)
Theorem long_password_never_matches (layer : DefaultNetLayer) (name : list Z) :
  forallb is_char name = true ->
  forallb is_char (m_password layer) = true ->
  STR_MAX_ENCODE_LEN <= Z.of_nat (length (m_password layer)) ->
  OnDecodeHandshake layer (Flip (OnEncodeHandshake layer name []))
  = Ok ((NetResponseCode.BadAuthentication, None), []).
Proof.
  intros Hname Hpw Hlong. unfold STR_MAX_ENCODE_LEN in Hlong.
  rewrite OnDecodeHandshake_Flip_OnEncodeHandshake by assumption.
  change (Z.to_nat (STR_MAX_ENCODE_LEN - 1)) with 127%nat.
  rewrite bool_decide_eq_false_2.
  - rewrite bool_decide_eq_false_2; [reflexivity |].
    intros Heq. apply (f_equal (@length Z)) in Heq.
    rewrite length_firstn in Heq. lia.
  - intros Heq. rewrite Heq in Hlong. simpl in Hlong. lia.
Qed.

Lemma long_password_never_matches_witness :
  OnDecodeHandshake {| m_connFlags := 0; m_password := repeat 120 128 |}
    (Flip (OnEncodeHandshake {| m_connFlags := 0; m_password := repeat 120 128 |}
             (chars "Alice") []))
  = Ok ((NetResponseCode.BadAuthentication, None), []).
Proof.
  apply (long_password_never_matches
           {| m_connFlags := 0; m_password := repeat 120 128 |} (chars "Alice"));
    [reflexivity | reflexivity | vm_compute; discriminate].
Defined.

Lemma Decode_string_loop_to_NUL (post out pre : list Z) (z : Z) (fuel : nat) :
  wrap_s 8 z = 0 ->
  forallb (fun b => negb (wrap_s 8 b =? 0)) post = true ->
  Z.of_nat (length pre) + 1 + Z.of_nat (length post) < 2 ^ 32 ->
  (length post < fuel)%nat ->
  Decode_string_loop fuel out (pre ++ z :: post)
  = Ok ((true, out ++ rev (map (wrap_s 8) post)), pre).
Proof.
  revert out fuel. induction post as [| b l IH] using rev_ind; intros out fuel Hz Hnz Hlen Hfuel.
  - destruct fuel as [| fuel]; [simpl in Hfuel; lia |].
    cbn [Decode_string_loop]. rewrite bind_Size.
    rewrite Size_of_nonzero by (rewrite length_app; simpl in *; lia).
    unfold bind. rewrite Pop_snoc, Hz. simpl. now rewrite app_nil_r.
  - destruct fuel as [| fuel]; [lia |].
    rewrite forallb_app in Hnz. apply andb_prop in Hnz. destruct Hnz as [Hl Hb].
    simpl in Hb. rewrite andb_true_r in Hb. apply negb_true_iff in Hb.
    rewrite length_app in Hlen, Hfuel. simpl in Hlen, Hfuel.
    cbn [Decode_string_loop]. rewrite bind_Size.
    rewrite Size_of_nonzero by (rewrite !length_app; simpl; rewrite length_app; simpl; lia).
    change (pre ++ z :: l ++ [b]) with (pre ++ (z :: l) ++ [b]).
    rewrite app_assoc. unfold bind at 1. rewrite Pop_snoc, Hb.
    rewrite IH by (assumption || lia).
    rewrite map_app, rev_app_distr. simpl. now rewrite <- app_assoc.
Qed.

(** X27. [OnDecodeHandshake] needs two terminators. A payload without a
    NUL byte, or with a single one, is answered [BadRequest] whatever the
    layer's password, and by then the whole payload has been popped. *)
Theorem OnDecodeHandshake_needs_two_terminators
    (layer : DefaultNetLayer) (pre post : list Z) (z : Z) :
  forallb (fun b => negb (wrap_s 8 b =? 0)) pre = true ->
  forallb (fun b => negb (wrap_s 8 b =? 0)) post = true ->
  wrap_s 8 z = 0 ->
  Z.of_nat (length pre) + 1 + Z.of_nat (length post) < 2 ^ 32 ->
  OnDecodeHandshake layer pre = Ok ((NetResponseCode.BadRequest, None), [])
  /\ OnDecodeHandshake layer (pre ++ z :: post)
     = Ok ((NetResponseCode.BadRequest, None), []).
Proof.
  intros Hpre Hpost Hz Hlen. split.
  - unfold OnDecodeHandshake.
    erewrite bind_eq by (apply Decode_string_without_terminator_aux; [assumption | lia]).
    reflexivity.
  - unfold OnDecodeHandshake.
    erewrite bind_eq;
      [| unfold Decode_string; apply Decode_string_loop_to_NUL;
         [assumption | assumption | lia | rewrite length_app; simpl; lia] ].
    cbn [fst snd negb].
    erewrite bind_eq by (apply Decode_string_without_terminator_aux; [assumption | lia]).
    reflexivity.
Qed.

Lemma OnDecodeHandshake_needs_two_terminators_witness :
  OnDecodeHandshake Scenario.layer (chars "Alice")
    = Ok ((NetResponseCode.BadRequest, None), [])
  /\ OnDecodeHandshake Scenario.layer (chars "Alice" ++ 0 :: chars "Bob")
     = Ok ((NetResponseCode.BadRequest, None), []).
Proof.
  apply (OnDecodeHandshake_needs_two_terminators Scenario.layer (chars "Alice") (chars "Bob") 0);
    reflexivity.
Defined.

(** ** MClass *)

Lemma IsChildOf_true (c : MClass) (other : Z) :
  IsChildOf c other true = existsb (fun a => a =? other) (addr_of c :: ancestors c).
Proof.
  induction c as [addr | addr parent IH]; cbn [IsChildOf existsb addr_of ancestors].
  - destruct (addr =? other); reflexivity.
  - destruct (addr =? other); [reflexivity |]. rewrite IH. reflexivity.
Qed.

(** X28. [IsChildOf] walks the parent chain. Asked about the class itself
    it answers [trueIfIdentical], without looking further; asked about
    another class it answers whether that class is among the ancestors. So
    with [trueIfIdentical] false no class is a child of itself, and a class
    without a parent is a child of no other class. *)
Theorem IsChildOf_spec (this : MClass) (other : Z) (trueIfIdentical : bool) :
  IsChildOf this other trueIfIdentical
  = if addr_of this =? other then trueIfIdentical
    else existsb (fun a => a =? other) (ancestors this).
Proof.
  destruct this as [addr | addr parent]; cbn [IsChildOf addr_of ancestors].
  - destruct (addr =? other); reflexivity.
  - destruct (addr =? other); [reflexivity |]. apply IsChildOf_true.
Qed.

(** ** The bomb pool *)

(** X29. [GetNewBomb] returns the first bomb of the pool that is not
    active: every bomb before it is active. It returns null exactly when
    every bomb of the pool is active, an empty pool included. *)
Theorem GetNewBomb_first_inactive (m_bombs : list ABBomb) :
  match GetNewBomb m_bombs with
  | Some bomb =>
      exists before after,
        m_bombs = before ++ bomb :: after
        /\ forallb IsActive before = true
        /\ IsActive bomb = false
  | None => forallb IsActive m_bombs = true
  end.
Proof.
  induction m_bombs as [| bomb rest IH]; cbn [GetNewBomb forallb].
  - reflexivity.
  - destruct (IsActive bomb) eqn:Hb; cbn [negb].
    + destruct (GetNewBomb rest) as [found |].
      * destruct IH as (before & after & -> & Hbefore & Hfound).
        exists (bomb :: before), after. repeat split; auto.
        cbn [forallb]. now rewrite Hb.
      * exact IH.
    + exists [], rest. repeat split; auto.
Qed.
